(** * AI-Diagrammer: the diagram editing engine

    A shallow embedding of the editor's core: the canvas bounds of
    [lib/boundaries.ts], the undo/redo hook of [hooks/useHistory.ts], the
    layout pass of [lib/layout.ts], the pointer and keyboard handlers of
    [components/Canvas.tsx], the save, import and merge handlers of
    [components/DiagramEditor.tsx] and the word wrap and grid of
    [lib/drawing.ts].

    JavaScript numbers are modelled as exact rationals ([Q]): no rounding,
    no NaN, no infinities.  A numeric equality or bound proved here is one
    of exact arithmetic; where the code's doubles round, it holds up to
    that rounding.  Strings are [string].  A [Map] keeps its
    insertion order and is an association list; a [Set] that is only
    tested and extended is a [gset]. *)

From Stdlib Require Import QArith Qround Qminmax Qabs Lqa Lia.
From stdpp Require Import base gmap strings list.

(** ** types/diagram.ts *)

Module Diagram.

Record Position := { x : Q; y : Q }.

Record Dimensions := { width : Q; height : Q }.

Inductive NodeType := rectangle | ellipse | diamond | image.

(** A node.  [P] is what the [position] field holds: a [Position] value
    where the code only ever copies nodes ([{...node, position: p}]), a
    heap location where the code assigns through the reference
    ([node.position.x = ...], see [Layout]). *)
Record DiagramNode (P : Type) := {
  id : string;
  type : NodeType;
  text : string;
  position : P;
  dimensions : Dimensions;
  imageUrl : option string
}.
Arguments id {P}.
Arguments type {P}.
Arguments text {P}.
Arguments position {P}.
Arguments dimensions {P}.
Arguments imageUrl {P}.

Record DiagramEdge := {
  edge_id : string;
  from : string;
  to : string;
  label : option string
}.

Record DrawingPath := {
  path_id : string;
  points : list Position;
  color : string;
  path_width : Q
}.

(** [paths] is optional in the source ([paths?: DrawingPath[]]). *)
Record DiagramData (P : Type) := {
  nodes : list (DiagramNode P);
  edges : list DiagramEdge;
  paths : option (list DrawingPath)
}.
Arguments nodes {P}.
Arguments edges {P}.
Arguments paths {P}.

End Diagram.

(** ** lib/boundaries.ts *)

Module Boundaries.
Import Diagram.
Local Open Scope Q_scope.

Definition minX : Q := 50.
Definition minY : Q := 50.
Definition maxX : Q := 2950.
Definition maxY : Q := 2950.

Definition GRID_SIZE : Q := 20.

(** [Math.round] rounds half up: [floor (v + 1/2)]. *)
Definition Math_round (v : Q) : Q := inject_Z (Qfloor (v + (1 # 2))).

Definition snapToGrid (value : Q) : Q := Math_round (value / GRID_SIZE) * GRID_SIZE.

Definition snapPositionToGrid (position : Position) : Position :=
  {| x := snapToGrid (x position); y := snapToGrid (y position) |}.

Definition constrainPosition (position : Position) (dimensions : Dimensions) : Position :=
  {| x := Qmax minX (Qmin (x position) (maxX - width dimensions));
     y := Qmax minY (Qmin (y position) (maxY - height dimensions)) |}.

Definition constrainAndSnapPosition (position : Position) (dimensions : Dimensions) : Position :=
  let snapped := snapPositionToGrid position in
  constrainPosition snapped dimensions.

Definition isWithinBounds (position : Position) (dimensions : Dimensions) : bool :=
  Qle_bool minX (x position) &&
  Qle_bool minY (y position) &&
  Qle_bool (x position + width dimensions) maxX &&
  Qle_bool (y position + height dimensions) maxY.

End Boundaries.

(** ** hooks/useHistory.ts *)

Module History.

Section UseHistory.

(** The hook is generic in the document it stores. *)
Context {D : Type}.

Record HistoryState := {
  past : list D;
  present : D;
  future : list D
}.

Definition MAX_HISTORY_SIZE : nat := 50.

(** The hook's state: the [useState] cell and the [isUndoRedoAction] ref. *)
Record Hook := {
  history : HistoryState;
  isUndoRedoAction : bool
}.

Definition useHistory (initialState : D) : Hook :=
  {| history := {| past := []; present := initialState; future := [] |};
     isUndoRedoAction := false |}.

Definition canUndo (h : Hook) : bool := 0 <? length (past (history h)).
Definition canRedo (h : Hook) : bool := 0 <? length (future (history h)).

(** [newPast.shift()] under its guard. *)
Definition shiftIfOver (newPast : list D) : list D :=
  if MAX_HISTORY_SIZE <? length newPast then drop 1 newPast else newPast.

Definition setState (newState : D) (skipHistory : bool) (h : Hook) : Hook :=
  let prev := history h in
  if skipHistory || isUndoRedoAction h then
    {| history := {| past := past prev; present := newState; future := future prev |};
       isUndoRedoAction := isUndoRedoAction h |}
  else
    let newPast := shiftIfOver (past prev ++ [present prev]) in
    {| history := {| past := newPast; present := newState; future := [] |};
       isUndoRedoAction := isUndoRedoAction h |}.

(** [undo] returns [null] ([None]) and changes nothing when [!canUndo]. *)
Definition undo (h : Hook) : option D * Hook :=
  let hs := history h in
  if negb (canUndo h) then (None, h) else
  match past hs !! (length (past hs) - 1)%nat with
  | None => (None, h)
  | Some p =>
      let newState :=
        {| past := take (length (past hs) - 1) (past hs);
           present := p;
           future := present hs :: future hs |} in
      (Some p, {| history := newState; isUndoRedoAction := true |})
  end.

Definition redo (h : Hook) : option D * Hook :=
  let hs := history h in
  if negb (canRedo h) then (None, h) else
  match future hs !! 0%nat with
  | None => (None, h)
  | Some f =>
      let newState :=
        {| past := past hs ++ [present hs];
           present := f;
           future := drop 1 (future hs) |} in
      (Some f, {| history := newState; isUndoRedoAction := true |})
  end.

Definition reset (newState : D) (h : Hook) : Hook :=
  {| history := {| past := []; present := newState; future := [] |};
     isUndoRedoAction := isUndoRedoAction h |}.

(** The [setTimeout(..., 0)] callback armed by [undo] and [redo]. *)
Definition timeoutFired (h : Hook) : Hook :=
  {| history := history h; isUndoRedoAction := false |}.

(** The two uses of [setState] the specification names. *)
Definition commit (newDoc : D) (h : Hook) : Hook := setState newDoc false h.
Definition replacePresent (newDoc : D) (h : Hook) : Hook := setState newDoc true h.

(** One operation of the hook. *)
Inductive step : Hook -> Hook -> Prop :=
| step_setState newState skipHistory h : step h (setState newState skipHistory h)
| step_undo h : step h (snd (undo h))
| step_redo h : step h (snd (redo h))
| step_reset newState h : step h (reset newState h)
| step_timeout h : step h (timeoutFired h).

Inductive reachable (initialState : D) : Hook -> Prop :=
| reach_init : reachable initialState (useHistory initialState)
| reach_step h h' : reachable initialState h -> step h h' -> reachable initialState h'.

(** [commit] applied to each document of a list, in order. *)
Definition commits (ds : list D) (h : Hook) : Hook :=
  fold_left (fun acc d => commit d acc) ds h.

End UseHistory.

Arguments HistoryState D : clear implicits.
Arguments Hook D : clear implicits.

End History.

(** ** A JavaScript [Map]: keys in insertion order *)

Module JsMap.

Section Ordered.
Context {K V : Type} `{EqDecision K}.

Fixpoint get (k : K) (m : list (K * V)) : option V :=
  match m with
  | [] => None
  | (k', v) :: m' => if decide (k' = k) then Some v else get k m'
  end.

(** [set] replaces the value of a key in place and appends a new key. *)
Fixpoint set (k : K) (v : V) (m : list (K * V)) : list (K * V) :=
  match m with
  | [] => [(k, v)]
  | (k', v') :: m' =>
      if decide (k' = k) then (k, v) :: m' else (k', v') :: set k v m'
  end.

(** A mutation of the object stored under [k], through a reference that
    [get k] returned. *)
Fixpoint update (f : V -> V) (k : K) (m : list (K * V)) : list (K * V) :=
  match m with
  | [] => []
  | (k', v) :: m' =>
      if decide (k' = k) then (k', f v) :: m' else (k', v) :: update f k m'
  end.

Definition has (k : K) (m : list (K * V)) : bool :=
  match get k m with Some _ => true | None => false end.

Definition values (m : list (K * V)) : list V := map snd m.

End Ordered.

End JsMap.

(** What a call leaves: a value, a thrown [TypeError], or a loop that was
    still running when the fuel of the model ran out. *)
Inductive outcome (A : Type) :=
| Ok (a : A)
| TypeError
| OutOfFuel.
Arguments Ok {A}.
Arguments TypeError {A}.
Arguments OutOfFuel {A}.

(** ** lib/layout.ts *)

Module Layout.
Import Diagram.
Local Open Scope Q_scope.

(** [autoLayout] assigns through [node.position], so the [Position]
    objects live in a store and a node holds the location of its own. *)
Definition loc := nat.
Definition Store := loc -> Position.

Definition write_x (l : loc) (v : Q) (s : Store) : Store :=
  fun l' => if decide (l' = l) then {| x := v; y := y (s l') |} else s l'.

Definition write_y (l : loc) (v : Q) (s : Store) : Store :=
  fun l' => if decide (l' = l) then {| x := x (s l'); y := v |} else s l'.

Record LayoutNode := {
  layout_id : string;
  node : DiagramNode loc;
  level : Z;
  children : list string;
  parents : list string
}.

Definition NodeMap := list (string * LayoutNode).

Definition set_level (l : Z) (n : LayoutNode) : LayoutNode :=
  {| layout_id := layout_id n; node := node n; level := l;
     children := children n; parents := parents n |}.

Definition push_child (c : string) (n : LayoutNode) : LayoutNode :=
  {| layout_id := layout_id n; node := node n; level := level n;
     children := children n ++ [c]; parents := parents n |}.

Definition push_parent (p : string) (n : LayoutNode) : LayoutNode :=
  {| layout_id := layout_id n; node := node n; level := level n;
     children := children n; parents := parents n ++ [p] |}.

(** [nodes.forEach(node => nodeMap.set(node.id, {...}))] *)
Definition buildNodeMap (nodes : list (DiagramNode loc)) : NodeMap :=
  fold_left
    (fun nodeMap n =>
       JsMap.set (id n)
         {| layout_id := id n; node := n; level := 0; children := []; parents := [] |}
         nodeMap)
    nodes [].

(** The body of [edges.forEach]. *)
Definition linkEdge (nodeMap : NodeMap) (edge : DiagramEdge) : NodeMap :=
  match JsMap.get (from edge) nodeMap, JsMap.get (to edge) nodeMap with
  | Some from_, Some to_ =>
      let nodeMap := JsMap.update (push_child (layout_id to_)) (from edge) nodeMap in
      JsMap.update (push_parent (layout_id from_)) (to edge) nodeMap
  | _, _ => nodeMap
  end.

Definition linkEdges (edges : list DiagramEdge) (nodeMap : NodeMap) : NodeMap :=
  fold_left linkEdge edges nodeMap.

(** The nodes without a parent; the first node of the map when there is
    none.  [None] is the [undefined] that [values()[0]] of an empty map
    would push, on which [rootNodes.map(n => n.id)] throws. *)
Definition selectRoots (nodeMap : NodeMap) : option (list LayoutNode) :=
  let rootNodes :=
    List.filter (fun n => (length (parents n) =? 0)%nat) (JsMap.values nodeMap) in
  if (length rootNodes =? 0)%nat then
    match JsMap.values nodeMap !! 0%nat with
    | Some first => Some (rootNodes ++ [first])
    | None => None
    end
  else Some rootNodes.

(** [current.parents.map(pid => nodeMap.get(pid)?.level ?? -1).filter(l => l >= 0)] *)
Definition parentLevels (nodeMap : NodeMap) (current : LayoutNode) : list Z :=
  List.filter (fun l => (0 <=? l)%Z)
    (map (fun pid =>
            match JsMap.get pid nodeMap with
            | Some p => level p
            | None => (-1)%Z
            end)
         (parents current)).

(** [Math.max(...ls)] of a list that is not empty. *)
Definition Math_max (l0 : Z) (ls : list Z) : Z := fold_left Z.max ls l0.

(** The [while (queue.length > 0)] loop. *)
Fixpoint bfsLoop (fuel : nat) (nodeMap : NodeMap) (visited : gset string)
    (queue : list string) : outcome NodeMap :=
  match queue with
  | [] => Ok nodeMap
  | currentId :: queue =>
      match fuel with
      | O => OutOfFuel
      | S fuel =>
          if decide (currentId ∈ visited) then bfsLoop fuel nodeMap visited queue
          else
            let visited := {[currentId]} ∪ visited in
            match JsMap.get currentId nodeMap with
            | None => TypeError
            | Some current =>
                let nodeMap :=
                  match parentLevels nodeMap current with
                  | [] => nodeMap
                  | l0 :: ls =>
                      JsMap.update (set_level (Math_max l0 ls + 1)%Z) currentId nodeMap
                  end in
                bfsLoop fuel nodeMap visited (queue ++ children current)
            end
      end
  end.

(** Every loop iteration shifts one entry of the queue, and entries are
    the roots and, once per visited node, its children. *)
Definition bfsFuel (nodeMap : NodeMap) (queue : list string) : nat :=
  S (length queue + sum_list_with (fun n => length (children n)) (JsMap.values nodeMap)).

Definition assignLevels (nodeMap : NodeMap) : outcome NodeMap :=
  match selectRoots nodeMap with
  | None => TypeError
  | Some rootNodes =>
      let queue := map layout_id rootNodes in
      bfsLoop (bfsFuel nodeMap queue) nodeMap ∅ queue
  end.

(** [nodeMap.forEach(layoutNode => ...)] filling [levelGroups]. *)
Definition groupByLevel (nodeMap : NodeMap) : list (Z * list LayoutNode) :=
  fold_left
    (fun levelGroups layoutNode =>
       let level := level layoutNode in
       let levelGroups :=
         if negb (JsMap.has level levelGroups) then JsMap.set level [] levelGroups
         else levelGroups in
       JsMap.update (fun levelNodes => levelNodes ++ [layoutNode]) level levelGroups)
    (JsMap.values nodeMap) [].

Definition LEVEL_SPACING : Q := 180.
Definition NODE_SPACING : Q := 60.
Definition START_X : Q := 100.
Definition START_Y : Q := 100.

(** The body of [levelNodes.forEach], on the store and [currentX]. *)
Definition placeNode (y : Q) (acc : Store * Q) (layoutNode : LayoutNode) : Store * Q :=
  let '(s, currentX) := acc in
  let s := write_x (position (node layoutNode)) currentX s in
  let s := write_y (position (node layoutNode)) y s in
  (s, currentX + (width (dimensions (node layoutNode)) + NODE_SPACING)).

(** The body of [levelGroups.forEach]. *)
Definition placeRow (s : Store) (row : Z * list LayoutNode) : Store :=
  let '(level, levelNodes) := row in
  let totalWidth :=
    fold_left (fun sum ln => sum + width (dimensions (node ln))) levelNodes 0 in
  let totalSpacing := (inject_Z (Z.of_nat (length levelNodes)) - 1) * NODE_SPACING in
  let totalRowWidth := totalWidth + totalSpacing in
  let currentX := START_X - totalRowWidth / 2 in
  let y := START_Y + inject_Z level * LEVEL_SPACING in
  fst (fold_left (placeNode y) levelNodes (s, currentX)).

Definition placeRows (levelGroups : list (Z * list LayoutNode)) (s : Store) : Store :=
  fold_left placeRow levelGroups s.

(** The levels the traversal settles on, by node id in map order. *)
Definition layoutLevels (diagramData : DiagramData loc) : outcome (list (string * Z)) :=
  match assignLevels (linkEdges (edges diagramData) (buildNodeMap (nodes diagramData))) with
  | Ok nodeMap => Ok (map (fun kv => (fst kv, level (snd kv))) nodeMap)
  | TypeError => TypeError
  | OutOfFuel => OutOfFuel
  end.

(** [autoLayout] on a store: the store it leaves and the document it
    returns.  The returned arrays are copies holding the same node
    objects; the returned object has no [paths]. *)
Definition autoLayout (s : Store) (diagramData : DiagramData loc)
    : outcome (Store * DiagramData loc) :=
  let nodes := nodes diagramData in
  let edges := edges diagramData in
  if (length nodes =? 0)%nat then Ok (s, diagramData)
  else
    let nodeMap := buildNodeMap nodes in
    let nodeMap := linkEdges edges nodeMap in
    match assignLevels nodeMap with
    | Ok nodeMap =>
        let levelGroups := groupByLevel nodeMap in
        let s := placeRows levelGroups s in
        Ok (s, {| Diagram.nodes := nodes; Diagram.edges := edges; paths := None |})
    | TypeError => TypeError
    | OutOfFuel => OutOfFuel
    end.

End Layout.

(** ** Invariants of the layout's node map *)

Module LayoutInv.
Import Diagram Layout.

(** The key is one the map holds. *)
Definition known (nodeMap : NodeMap) (k : string) : Prop :=
  is_Some (JsMap.get k nodeMap).

(** Every entry is stored under its own id. *)
Definition keyed (nodeMap : NodeMap) : Prop :=
  Forall (fun kv => layout_id (snd kv) = fst kv) nodeMap.

(** Every child listed in the map is a key of the map. *)
Definition closed (nodeMap : NodeMap) : Prop :=
  Forall (fun kv => Forall (known nodeMap) (children (snd kv))) nodeMap.

(** The children that the nodes not yet visited can still enqueue. *)
Definition pending (visited : gset string) (nodeMap : NodeMap) : nat :=
  sum_list_with
    (fun kv : string * LayoutNode =>
       if decide (fst kv ∈ visited) then 0%nat else length (children (snd kv)))
    nodeMap.

End LayoutInv.

(** ** components/Canvas.tsx *)

Module Canvas.
Import Diagram Boundaries.
Local Open Scope Q_scope.
Local Open Scope string_scope.
Local Open Scope list_scope.

(** The literal type ['select' | 'rectangle' | 'ellipse' | 'diamond' |
    'text' | 'pen']. *)
Inductive Tool :=
| tool_select
| tool_rectangle
| tool_ellipse
| tool_diamond
| tool_text
| tool_pen.

#[global] Instance Tool_eq_dec : EqDecision Tool.
Proof. solve_decision. Defined.

Definition toolName (t : Tool) : string :=
  match t with
  | tool_select => "select"
  | tool_rectangle => "rectangle"
  | tool_ellipse => "ellipse"
  | tool_diamond => "diamond"
  | tool_text => "text"
  | tool_pen => "pen"
  end.

(** [selectedTool as NodeType], for the three tools that draw a shape. *)
Definition asNodeType (t : Tool) : option NodeType :=
  match t with
  | tool_rectangle => Some rectangle
  | tool_ellipse => Some ellipse
  | tool_diamond => Some diamond
  | _ => None
  end.

(** [s.charAt(0).toUpperCase() + s.slice(1)] on the ASCII letters of a
    tool name. *)
Definition toUpperCase (c : Ascii.ascii) : Ascii.ascii :=
  let n := Ascii.nat_of_ascii c in
  if ((97 <=? n) && (n <=? 122))%nat then Ascii.ascii_of_nat (n - 32) else c.

Definition capitalize (s : string) : string :=
  match s with
  | EmptyString => EmptyString
  | String c rest => String (toUpperCase c) rest
  end.

(** What the component receives from [DiagramEditor]. *)
Record Props := {
  diagramData : DiagramData Position;
  selectedNodeIds : list string;
  selectedTool : Tool;
  penColor : string
}.

(** The component's [useState] cells. *)
Record State := {
  offset : Position;
  scale : Q;
  isPanning : bool;
  isDragging : bool;
  isDrawing : bool;
  isSelecting : bool;
  lastMousePos : Position;
  dragOffsets : list (string * Position);
  drawStart : Position;
  selectionBox : option (Position * Position);
  currentPath : list Position;
  editingTextNode : option string;
  textInput : string;
  textInputPos : Position;
  isSpacePressed : bool;
  tempNodePositions : list (string * Position)
}.

Definition initialState : State :=
  {| offset := {| x := 0; y := 0 |}; scale := 1;
     isPanning := false; isDragging := false; isDrawing := false; isSelecting := false;
     lastMousePos := {| x := 0; y := 0 |};
     dragOffsets := [];
     drawStart := {| x := 0; y := 0 |};
     selectionBox := None;
     currentPath := [];
     editingTextNode := None;
     textInput := "";
     textInputPos := {| x := 0; y := 0 |};
     isSpacePressed := false;
     tempNodePositions := [] |}.

(** The state setters. *)
Definition setOffset v st :=
  {| offset := v; scale := scale st; isPanning := isPanning st; isDragging := isDragging st;
     isDrawing := isDrawing st; isSelecting := isSelecting st; lastMousePos := lastMousePos st;
     dragOffsets := dragOffsets st; drawStart := drawStart st; selectionBox := selectionBox st;
     currentPath := currentPath st; editingTextNode := editingTextNode st;
     textInput := textInput st; textInputPos := textInputPos st;
     isSpacePressed := isSpacePressed st; tempNodePositions := tempNodePositions st |}.
Definition setScale v st :=
  {| offset := offset st; scale := v; isPanning := isPanning st; isDragging := isDragging st;
     isDrawing := isDrawing st; isSelecting := isSelecting st; lastMousePos := lastMousePos st;
     dragOffsets := dragOffsets st; drawStart := drawStart st; selectionBox := selectionBox st;
     currentPath := currentPath st; editingTextNode := editingTextNode st;
     textInput := textInput st; textInputPos := textInputPos st;
     isSpacePressed := isSpacePressed st; tempNodePositions := tempNodePositions st |}.
Definition setIsPanning v st :=
  {| offset := offset st; scale := scale st; isPanning := v; isDragging := isDragging st;
     isDrawing := isDrawing st; isSelecting := isSelecting st; lastMousePos := lastMousePos st;
     dragOffsets := dragOffsets st; drawStart := drawStart st; selectionBox := selectionBox st;
     currentPath := currentPath st; editingTextNode := editingTextNode st;
     textInput := textInput st; textInputPos := textInputPos st;
     isSpacePressed := isSpacePressed st; tempNodePositions := tempNodePositions st |}.
Definition setIsDragging v st :=
  {| offset := offset st; scale := scale st; isPanning := isPanning st; isDragging := v;
     isDrawing := isDrawing st; isSelecting := isSelecting st; lastMousePos := lastMousePos st;
     dragOffsets := dragOffsets st; drawStart := drawStart st; selectionBox := selectionBox st;
     currentPath := currentPath st; editingTextNode := editingTextNode st;
     textInput := textInput st; textInputPos := textInputPos st;
     isSpacePressed := isSpacePressed st; tempNodePositions := tempNodePositions st |}.
Definition setIsDrawing v st :=
  {| offset := offset st; scale := scale st; isPanning := isPanning st; isDragging := isDragging st;
     isDrawing := v; isSelecting := isSelecting st; lastMousePos := lastMousePos st;
     dragOffsets := dragOffsets st; drawStart := drawStart st; selectionBox := selectionBox st;
     currentPath := currentPath st; editingTextNode := editingTextNode st;
     textInput := textInput st; textInputPos := textInputPos st;
     isSpacePressed := isSpacePressed st; tempNodePositions := tempNodePositions st |}.
Definition setIsSelecting v st :=
  {| offset := offset st; scale := scale st; isPanning := isPanning st; isDragging := isDragging st;
     isDrawing := isDrawing st; isSelecting := v; lastMousePos := lastMousePos st;
     dragOffsets := dragOffsets st; drawStart := drawStart st; selectionBox := selectionBox st;
     currentPath := currentPath st; editingTextNode := editingTextNode st;
     textInput := textInput st; textInputPos := textInputPos st;
     isSpacePressed := isSpacePressed st; tempNodePositions := tempNodePositions st |}.
Definition setLastMousePos v st :=
  {| offset := offset st; scale := scale st; isPanning := isPanning st; isDragging := isDragging st;
     isDrawing := isDrawing st; isSelecting := isSelecting st; lastMousePos := v;
     dragOffsets := dragOffsets st; drawStart := drawStart st; selectionBox := selectionBox st;
     currentPath := currentPath st; editingTextNode := editingTextNode st;
     textInput := textInput st; textInputPos := textInputPos st;
     isSpacePressed := isSpacePressed st; tempNodePositions := tempNodePositions st |}.
Definition setDragOffsets v st :=
  {| offset := offset st; scale := scale st; isPanning := isPanning st; isDragging := isDragging st;
     isDrawing := isDrawing st; isSelecting := isSelecting st; lastMousePos := lastMousePos st;
     dragOffsets := v; drawStart := drawStart st; selectionBox := selectionBox st;
     currentPath := currentPath st; editingTextNode := editingTextNode st;
     textInput := textInput st; textInputPos := textInputPos st;
     isSpacePressed := isSpacePressed st; tempNodePositions := tempNodePositions st |}.
Definition setDrawStart v st :=
  {| offset := offset st; scale := scale st; isPanning := isPanning st; isDragging := isDragging st;
     isDrawing := isDrawing st; isSelecting := isSelecting st; lastMousePos := lastMousePos st;
     dragOffsets := dragOffsets st; drawStart := v; selectionBox := selectionBox st;
     currentPath := currentPath st; editingTextNode := editingTextNode st;
     textInput := textInput st; textInputPos := textInputPos st;
     isSpacePressed := isSpacePressed st; tempNodePositions := tempNodePositions st |}.
Definition setSelectionBox v st :=
  {| offset := offset st; scale := scale st; isPanning := isPanning st; isDragging := isDragging st;
     isDrawing := isDrawing st; isSelecting := isSelecting st; lastMousePos := lastMousePos st;
     dragOffsets := dragOffsets st; drawStart := drawStart st; selectionBox := v;
     currentPath := currentPath st; editingTextNode := editingTextNode st;
     textInput := textInput st; textInputPos := textInputPos st;
     isSpacePressed := isSpacePressed st; tempNodePositions := tempNodePositions st |}.
Definition setCurrentPath v st :=
  {| offset := offset st; scale := scale st; isPanning := isPanning st; isDragging := isDragging st;
     isDrawing := isDrawing st; isSelecting := isSelecting st; lastMousePos := lastMousePos st;
     dragOffsets := dragOffsets st; drawStart := drawStart st; selectionBox := selectionBox st;
     currentPath := v; editingTextNode := editingTextNode st;
     textInput := textInput st; textInputPos := textInputPos st;
     isSpacePressed := isSpacePressed st; tempNodePositions := tempNodePositions st |}.
Definition setEditingTextNode v st :=
  {| offset := offset st; scale := scale st; isPanning := isPanning st; isDragging := isDragging st;
     isDrawing := isDrawing st; isSelecting := isSelecting st; lastMousePos := lastMousePos st;
     dragOffsets := dragOffsets st; drawStart := drawStart st; selectionBox := selectionBox st;
     currentPath := currentPath st; editingTextNode := v;
     textInput := textInput st; textInputPos := textInputPos st;
     isSpacePressed := isSpacePressed st; tempNodePositions := tempNodePositions st |}.
Definition setTextInput v st :=
  {| offset := offset st; scale := scale st; isPanning := isPanning st; isDragging := isDragging st;
     isDrawing := isDrawing st; isSelecting := isSelecting st; lastMousePos := lastMousePos st;
     dragOffsets := dragOffsets st; drawStart := drawStart st; selectionBox := selectionBox st;
     currentPath := currentPath st; editingTextNode := editingTextNode st;
     textInput := v; textInputPos := textInputPos st;
     isSpacePressed := isSpacePressed st; tempNodePositions := tempNodePositions st |}.
Definition setTextInputPos v st :=
  {| offset := offset st; scale := scale st; isPanning := isPanning st; isDragging := isDragging st;
     isDrawing := isDrawing st; isSelecting := isSelecting st; lastMousePos := lastMousePos st;
     dragOffsets := dragOffsets st; drawStart := drawStart st; selectionBox := selectionBox st;
     currentPath := currentPath st; editingTextNode := editingTextNode st;
     textInput := textInput st; textInputPos := v;
     isSpacePressed := isSpacePressed st; tempNodePositions := tempNodePositions st |}.
Definition setIsSpacePressed v st :=
  {| offset := offset st; scale := scale st; isPanning := isPanning st; isDragging := isDragging st;
     isDrawing := isDrawing st; isSelecting := isSelecting st; lastMousePos := lastMousePos st;
     dragOffsets := dragOffsets st; drawStart := drawStart st; selectionBox := selectionBox st;
     currentPath := currentPath st; editingTextNode := editingTextNode st;
     textInput := textInput st; textInputPos := textInputPos st;
     isSpacePressed := v; tempNodePositions := tempNodePositions st |}.
Definition setTempNodePositions v st :=
  {| offset := offset st; scale := scale st; isPanning := isPanning st; isDragging := isDragging st;
     isDrawing := isDrawing st; isSelecting := isSelecting st; lastMousePos := lastMousePos st;
     dragOffsets := dragOffsets st; drawStart := drawStart st; selectionBox := selectionBox st;
     currentPath := currentPath st; editingTextNode := editingTextNode st;
     textInput := textInput st; textInputPos := textInputPos st;
     isSpacePressed := isSpacePressed st; tempNodePositions := v |}.

(** The calls a handler makes on the callbacks of its props, in order. *)
Inductive Call :=
| setDiagramData (data : DiagramData Position)
| onNodeSelect (nodeIds : list string)
| onToolChange (tool : Tool).

(** [ids.includes(s)] *)
Definition includes (ids : list string) (s : string) : bool := bool_decide (s ∈ ids).

(** The truthiness of a [string | null]: [null] and the empty string are
    falsy. *)
Definition truthy (s : option string) : bool :=
  match s with
  | Some s => negb (String.eqb s "")
  | None => false
  end.

(** [{...node, position: p}] *)
Definition withPosition (p : Position) (n : DiagramNode Position) : DiagramNode Position :=
  {| id := id n; type := type n; text := text n; position := p;
     dimensions := dimensions n; imageUrl := imageUrl n |}.

(** [{...diagramData, nodes: ns}] and its siblings. *)
Definition withNodes (ns : list (DiagramNode Position)) (d : DiagramData Position) :=
  {| nodes := ns; edges := edges d; paths := paths d |}.
Definition withNodesEdges ns es (d : DiagramData Position) : DiagramData Position :=
  {| nodes := ns; edges := es; paths := paths d |}.
Definition withPaths (ps : list DrawingPath) (d : DiagramData Position) :=
  {| nodes := nodes d; edges := edges d; paths := Some ps |}.

(** The keyboard handler.  [key] is [e.key] and [targetIsBody] is
    [e.target === document.body]. *)
Definition handleKeyDown (key : string) (targetIsBody : bool) (p : Props) (st : State)
    : State * list Call :=
  if String.eqb key " " && negb (truthy (editingTextNode st)) && targetIsBody then
    (setIsSpacePressed true st, [])
  else if String.eqb key "Escape" then
    (setIsSelecting false (setSelectionBox None (setEditingTextNode None st)),
     [onToolChange tool_select; onNodeSelect []])
  else if (String.eqb key "Delete" || String.eqb key "Backspace")
          && (0 <? length (selectedNodeIds p))%nat
          && negb (truthy (editingTextNode st)) then
    let newNodes :=
      List.filter (fun n => negb (includes (selectedNodeIds p) (id n)))
        (nodes (diagramData p)) in
    let newEdges :=
      List.filter
        (fun e => negb (includes (selectedNodeIds p) (from e))
                  && negb (includes (selectedNodeIds p) (to e)))
        (edges (diagramData p)) in
    (st, [setDiagramData (withNodesEdges newNodes newEdges (diagramData p)); onNodeSelect []])
  else (st, []).

Definition handleKeyUp (key : string) (st : State) : State :=
  if String.eqb key " " then setIsPanning false (setIsSpacePressed false st) else st.

(** [canvasRect] is [canvasRef.current.getBoundingClientRect()] as
    (left, top), [None] while the ref is empty. *)
Definition screenToCanvas (canvasRect : option (Q * Q)) (st : State) (screenX screenY : Q)
    : Position :=
  match canvasRect with
  | None => {| x := 0; y := 0 |}
  | Some (left_, top_) =>
      {| x := (screenX - left_ - x (offset st)) / scale st;
         y := (screenY - top_ - y (offset st)) / scale st |}
  end.

Definition containsPoint (px py : Q) (n : DiagramNode Position) : bool :=
  Qle_bool (x (position n)) px &&
  Qle_bool px (x (position n) + width (dimensions n)) &&
  Qle_bool (y (position n)) py &&
  Qle_bool py (y (position n) + height (dimensions n)).

(** The loop runs from the last node to the first and returns the first
    hit. *)
Definition findNodeAtPosition (p : Props) (px py : Q) : option (DiagramNode Position) :=
  List.find (containsPoint px py) (rev (nodes (diagramData p))).

Definition getNodesInBox (p : Props) (box : Position * Position) : list string :=
  let '(start, end_) := box in
  let minX := Qmin (x start) (x end_) in
  let maxX := Qmax (x start) (x end_) in
  let minY := Qmin (y start) (y end_) in
  let maxY := Qmax (y start) (y end_) in
  map id
    (List.filter
       (fun n =>
          let nodeRight := x (position n) + width (dimensions n) in
          let nodeBottom := y (position n) + height (dimensions n) in
          Qle_bool minX (x (position n)) &&
          Qle_bool nodeRight maxX &&
          Qle_bool minY (y (position n)) &&
          Qle_bool nodeBottom maxY)
       (nodes (diagramData p))).

Record MouseEvent := {
  button : Z;
  clientX : Q;
  clientY : Q;
  ctrlKey : bool;
  metaKey : bool
}.

(** The drag offsets of [handleMouseDown]: one entry for each dragged id
    that names a node. *)
Definition dragOffsetsFor (p : Props) (canvasPos : Position) (nodesToDrag : list string)
    : list (string * Position) :=
  fold_left
    (fun offsets i =>
       match List.find (fun n => String.eqb (id n) i) (nodes (diagramData p)) with
       | Some n =>
           JsMap.set i
             {| x := x canvasPos - x (position n); y := y canvasPos - y (position n) |}
             offsets
       | None => offsets
       end)
    nodesToDrag [].

Definition handleMouseDown (canvasRect : option (Q * Q)) (e : MouseEvent)
    (p : Props) (st : State) : State * list Call :=
  if negb (button e =? 0)%Z then (st, [])
  else
    let canvasPos := screenToCanvas canvasRect st (clientX e) (clientY e) in
    let clickedNode := findNodeAtPosition p (x canvasPos) (y canvasPos) in
    let isCtrlOrCmd := ctrlKey e || metaKey e in
    if isSpacePressed st then
      (setLastMousePos {| x := clientX e; y := clientY e |} (setIsPanning true st), [])
    else
      match selectedTool p with
      | tool_select =>
          match clickedNode with
          | Some clicked =>
              if isCtrlOrCmd then
                if includes (selectedNodeIds p) (id clicked) then
                  (st, [onNodeSelect
                          (List.filter (fun i => negb (String.eqb i (id clicked)))
                             (selectedNodeIds p))])
                else
                  (st, [onNodeSelect (selectedNodeIds p ++ [id clicked])])
              else
                let nodesToDrag :=
                  if includes (selectedNodeIds p) (id clicked) then selectedNodeIds p
                  else [id clicked] in
                let calls :=
                  if negb (includes (selectedNodeIds p) (id clicked))
                  then [onNodeSelect [id clicked]] else [] in
                (setDragOffsets (dragOffsetsFor p canvasPos nodesToDrag)
                   (setIsDragging true st),
                 calls)
          | None =>
              let calls := if negb isCtrlOrCmd then [onNodeSelect []] else [] in
              (setSelectionBox (Some (canvasPos, canvasPos)) (setIsSelecting true st), calls)
          end
      | tool_pen => (setCurrentPath [canvasPos] (setIsDrawing true st), [])
      | tool_text =>
          match clickedNode with
          | Some _ => (st, [])
          | None =>
              match canvasRect with
              | None => (st, [])
              | Some (left_, top_) =>
                  (setTextInput ""
                     (setEditingTextNode (Some "new")
                        (setTextInputPos {| x := clientX e - left_; y := clientY e - top_ |} st)),
                   [])
              end
          end
      | _ => (setDrawStart canvasPos (setIsDrawing true st), [])
      end.

(** The preview positions of [handleMouseMove] while dragging. *)
Definition previewPositions (p : Props) (st : State) (canvasPos : Position)
    : list (string * Position) :=
  fold_left
    (fun newTempPositions n =>
       if includes (selectedNodeIds p) (id n) then
         match JsMap.get (id n) (dragOffsets st) with
         | Some dragOffset =>
             let newPosition :=
               {| x := x canvasPos - x dragOffset; y := y canvasPos - y dragOffset |} in
             JsMap.set (id n) (constrainAndSnapPosition newPosition (dimensions n))
               newTempPositions
         | None => newTempPositions
         end
       else newTempPositions)
    (nodes (diagramData p)) [].

Definition handleMouseMove (canvasRect : option (Q * Q)) (e : MouseEvent)
    (p : Props) (st : State) : State :=
  let canvasPos := screenToCanvas canvasRect st (clientX e) (clientY e) in
  if isPanning st then
    let dx := clientX e - x (lastMousePos st) in
    let dy := clientY e - y (lastMousePos st) in
    setLastMousePos {| x := clientX e; y := clientY e |}
      (setOffset {| x := x (offset st) + dx; y := y (offset st) + dy |} st)
  else if isDragging st && (0 <? length (selectedNodeIds p))%nat then
    setTempNodePositions (previewPositions p st canvasPos) st
  else
    match isSelecting st, selectionBox st with
    | true, Some (start, _) => setSelectionBox (Some (start, canvasPos)) st
    | _, _ =>
        if isDrawing st && bool_decide (selectedTool p = tool_pen) then
          setCurrentPath (currentPath st ++ [canvasPos]) st
        else st
    end.

(** The first [if] of [handleMouseUp]: the drag preview is committed.
    Here and below [st] is the state of the render the handler closed
    over, which the conditions read, and [acc] the state with the setters
    called so far. *)
Definition commitDrag (p : Props) (st acc : State) : State * list Call :=
  if isDragging st && (0 <? length (tempNodePositions st))%nat then
    let updatedNodes :=
      map (fun n =>
             match JsMap.get (id n) (tempNodePositions st) with
             | Some tempPos => withPosition tempPos n
             | None => n
             end)
          (nodes (diagramData p)) in
    (setTempNodePositions [] acc, [setDiagramData (withNodes updatedNodes (diagramData p))])
  else (acc, []).

(** The second [if] chain of [handleMouseUp].  [canvasPos] is
    [screenToCanvas(e.clientX, e.clientY)] and [now] the decimal text of
    [Date.now()]. *)
Definition finishGesture (canvasPos : Position) (now : string) (p : Props)
    (st acc : State) : State * list Call :=
  if isDrawing st && bool_decide (selectedTool p = tool_pen)
     && (2 <? length (currentPath st))%nat then
    let newPath :=
      {| path_id := String.append "path-" now; points := currentPath st;
         color := penColor p; path_width := 2 |} in
    (setCurrentPath [] acc,
     [setDiagramData
        (withPaths (default [] (paths (diagramData p)) ++ [newPath]) (diagramData p))])
  else
    match (if isDrawing st then asNodeType (selectedTool p) else None) with
    | Some nodeType =>
        let width := Qabs (x canvasPos - x (drawStart st)) in
        let height := Qabs (y canvasPos - y (drawStart st)) in
        if negb (Qle_bool width 20) && negb (Qle_bool height 20) then
          let px := Qmin (x (drawStart st)) (x canvasPos) in
          let py := Qmin (y (drawStart st)) (y canvasPos) in
          let position :=
            constrainAndSnapPosition {| x := px; y := py |}
              {| Diagram.width := width; Diagram.height := height |} in
          let newNode :=
            {| id := String.append "node-" now;
               type := nodeType;
               text := capitalize (toolName (selectedTool p));
               Diagram.position := position;
               dimensions := {| Diagram.width := width; Diagram.height := height |};
               imageUrl := None |} in
          (acc,
           [setDiagramData (withNodes (nodes (diagramData p) ++ [newNode]) (diagramData p));
            onToolChange tool_select])
        else (acc, [])
    | None =>
        match isSelecting st, selectionBox st with
        | true, Some box =>
            let nodesInBox := getNodesInBox p box in
            let calls :=
              if (0 <? length nodesInBox)%nat then [onNodeSelect nodesInBox] else [] in
            (setIsSelecting false (setSelectionBox None acc), calls)
        | _, _ => (acc, [])
        end
    end.

Definition handleMouseUp (canvasPos : Position) (now : string) (p : Props) (st : State)
    : State * list Call :=
  let '(acc, calls1) := commitDrag p st st in
  let '(acc, calls2) := finishGesture canvasPos now p st acc in
  (setIsDrawing false (setIsDragging false (setIsPanning false acc)), calls1 ++ calls2).

(** [handleWheel]: the new scale from the old one and [e.deltaY]. *)
Definition handleWheel (deltaY : Q) (st : State) : State :=
  let delta := if Qlt_le_dec 0 deltaY then 9 # 10 else 11 # 10 in
  setScale (Qmax (1 # 10) (Qmin 3 (scale st * delta))) st.

Definition handleDoubleClick (canvasRect : option (Q * Q)) (e : MouseEvent)
    (p : Props) (st : State) : State :=
  if negb (bool_decide (selectedTool p = tool_select)) then st
  else
    let canvasPos := screenToCanvas canvasRect st (clientX e) (clientY e) in
    match findNodeAtPosition p (x canvasPos) (y canvasPos) with
    | Some clicked =>
        match canvasRect with
        | None => st
        | Some (left_, top_) =>
            setTextInput (text clicked)
              (setEditingTextNode (Some (id clicked))
                 (setTextInputPos {| x := clientX e - left_; y := clientY e - top_ |} st))
        end
    | None => st
    end.

End Canvas.

(** ** components/DiagramEditor.tsx *)

Module DiagramEditor.
Import History.
Local Open Scope string_scope.
Local Open Scope list_scope.

#[local] Set Warnings "-register-all".

(** A value that [JSON.parse] returns.  An object is its members in
    source order. *)
Inductive json :=
| JNull
| JBool (b : bool)
| JNumber (q : Q)
| JString (s : string)
| JArray (items : list json)
| JObject (members : list (string * json)).

(** The value of a member name: the last one given wins, as in
    [JSON.parse]. *)
Fixpoint member (k : string) (members : list (string * json)) : option json :=
  match members with
  | [] => None
  | (k', v) :: rest =>
      match member k rest with
      | Some v' => Some v'
      | None => if String.eqb k' k then Some v else None
      end
  end.

(** [value.k]: a [TypeError] on [null], [undefined] ([None]) on the other
    values that are not objects and on an object without the member. *)
Definition property (k : string) (value : json) : outcome (option json) :=
  match value with
  | JNull => TypeError
  | JObject members => Ok (member k members)
  | _ => Ok None
  end.

(** [Array.isArray] of a property that may be [undefined]. *)
Definition isArray (v : option json) : bool :=
  match v with
  | Some (JArray _) => true
  | _ => false
  end.

(** [!v] of a property that may be [undefined]. *)
Definition falsy (v : option json) : bool :=
  match v with
  | None => true
  | Some JNull => true
  | Some (JBool b) => negb b
  | Some (JNumber q) => Qeq_bool q 0
  | Some (JString s) => String.eqb s ""
  | Some (JArray _) => false
  | Some (JObject _) => false
  end.

Inductive SaveStatus := idle | saving | saved | unsaved.

(** What the file input hands to [onchange]: no file, a text that
    [JSON.parse] rejects (with the message of its error), or the parsed
    value. *)
Inductive FileRead :=
| NoFile
| Unparsable (message : string)
| Parsed (value : json).

Section Editor.

(** The document type of the editor, and the run-time identity
    [JSON.parse(text) as DiagramData]. *)
Context {D : Type} (asDiagramData : json -> D).

(** The message of the [TypeError] that reading a property of [null]
    throws; it is the engine's. *)
Context (nullPropertyMessage : string).

(** The editor's state: the history hook, the [useState] cells that the
    handlers below touch, the data of the pending debounced save
    ([saveTimeoutRef]), and the saves started so far. *)
Record State := {
  history : Hook D;
  selectedNodeIds : list string;
  error : option string;
  saveStatus : SaveStatus;
  saveTimeout : option D;
  saves : list D
}.

Definition debouncedSave (data : D) (st : State) : State :=
  {| history := history st; selectedNodeIds := selectedNodeIds st; error := error st;
     saveStatus := unsaved; saveTimeout := Some data; saves := saves st |}.

(** [saveDiagram] up to its first [await]: without a user nothing
    happens. *)
Definition saveDiagram (user : bool) (data : D) (st : State) : State :=
  if negb user then st
  else
    {| history := history st; selectedNodeIds := selectedNodeIds st; error := error st;
       saveStatus := saving; saveTimeout := saveTimeout st; saves := saves st ++ [data] |}.

Definition clearSaveTimeout (st : State) : State :=
  {| history := history st; selectedNodeIds := selectedNodeIds st; error := error st;
     saveStatus := saveStatus st; saveTimeout := None; saves := saves st |}.

(** The debounce timer fires. *)
Definition saveTimeoutFired (user : bool) (st : State) : State :=
  match saveTimeout st with
  | Some data => saveDiagram user data (clearSaveTimeout st)
  | None => st
  end.

Definition handleSave (user : bool) (st : State) : State :=
  saveDiagram user (present (History.history (history st))) (clearSaveTimeout st).

Definition withHistory (h : Hook D) (st : State) : State :=
  {| history := h; selectedNodeIds := selectedNodeIds st; error := error st;
     saveStatus := saveStatus st; saveTimeout := saveTimeout st; saves := saves st |}.

Definition setSelectedNodeIds (ids : list string) (st : State) : State :=
  {| history := history st; selectedNodeIds := ids; error := error st;
     saveStatus := saveStatus st; saveTimeout := saveTimeout st; saves := saves st |}.

Definition setError (e : option string) (st : State) : State :=
  {| history := history st; selectedNodeIds := selectedNodeIds st; error := e;
     saveStatus := saveStatus st; saveTimeout := saveTimeout st; saves := saves st |}.

Definition updateDiagramData (newData : D) (st : State) : State :=
  debouncedSave newData (withHistory (setState newData false (history st)) st).

Definition handleUndo (st : State) : State :=
  match undo (history st) with
  | (Some previousState, h) => debouncedSave previousState (withHistory h st)
  | (None, h) => withHistory h st
  end.

Definition handleRedo (st : State) : State :=
  match redo (history st) with
  | (Some nextState, h) => debouncedSave nextState (withHistory h st)
  | (None, h) => withHistory h st
  end.

(** The [onchange] handler that [handleImport] installs. *)
Definition handleImport (file : FileRead) (st : State) : State :=
  match file with
  | NoFile => st
  | Unparsable message => setError (Some message) st
  | Parsed importedData =>
      match property "nodes" importedData with
      | Ok nodesField =>
          if falsy nodesField || negb (isArray nodesField) then
            setError (Some "Invalid diagram format") st
          else
            debouncedSave (asDiagramData importedData)
              (setSelectedNodeIds []
                 (withHistory (setState (asDiagramData importedData) false (history st)) st))
      | _ => setError (Some nullPropertyMessage) st
      end
  end.

End Editor.

Arguments State D : clear implicits.

End DiagramEditor.

(** ** Sample documents *)

Module LayoutExamples.
Import Diagram Layout.
Local Open Scope Q_scope.
Local Open Scope string_scope.

(** The cycle A -> B -> C -> A. *)
Definition cyclic3 : DiagramData loc :=
  let mk i l :=
    {| id := i; type := rectangle; text := i; position := l;
       dimensions := {| width := 180; height := 80 |}; imageUrl := None |} in
  let edge i a b := {| edge_id := i; from := a; to := b; label := None |} in
  {| nodes := [mk "A" 0%nat; mk "B" 1%nat; mk "C" 2%nat];
     edges := [edge "e1" "A" "B"; edge "e2" "B" "C"; edge "e3" "C" "A"];
     paths := None |}.

(** One node and no edge. *)
Definition single : DiagramData loc :=
  {| nodes := [ {| id := "A"; type := rectangle; text := "A"; position := 0%nat;
                   dimensions := {| width := 180; height := 80 |}; imageUrl := None |} ];
     edges := [];
     paths := None |}.

End LayoutExamples.

(** ** Sample canvas and editor inputs *)

Module CanvasExamples.
Import Diagram Canvas.
Local Open Scope Q_scope.
Local Open Scope string_scope.
Local Open Scope list_scope.

Definition box (i : string) (px py : Q) : DiagramNode Position :=
  {| id := i; type := rectangle; text := i;
     position := {| x := px; y := py |};
     dimensions := {| width := 180; height := 80 |}; imageUrl := None |}.

Definition arrow (i a b : string) : DiagramEdge :=
  {| edge_id := i; from := a; to := b; label := None |}.

(** Three boxes in a chain, a -> b -> c. *)
Definition chain : DiagramData Position :=
  {| nodes := [box "a" 100 100; box "b" 400 100; box "c" 700 100];
     edges := [arrow "e1" "a" "b"; arrow "e2" "b" "c"];
     paths := Some [] |}.

Definition selecting_b : Props :=
  {| diagramData := chain; selectedNodeIds := ["b"];
     selectedTool := tool_select; penColor := "#000000" |}.

Definition penProps : Props :=
  {| diagramData := chain; selectedNodeIds := [];
     selectedTool := tool_pen; penColor := "#ff0000" |}.

(** A pen stroke in progress with the given points. *)
Definition stroke (pts : list Position) : State :=
  setCurrentPath pts (setIsDrawing true initialState).

Definition pt (px py : Q) : Position := {| x := px; y := py |}.

End CanvasExamples.

(** ** Views of a history hook *)

Module HistoryAux.
Import History.

Section Views.
Context {D : Type}.

(** The documents of a hook in time order. *)
Definition timeline (h : Hook D) : list D :=
  past (history h) ++ present (history h) :: future (history h).

(** [undo] until nothing is left to undo. *)
Definition undoAll (h : Hook D) : Hook D :=
  Nat.iter (length (past (history h))) (fun h => snd (undo h)) h.

End Views.

End HistoryAux.

(** ** Views of the layout phases *)

Module LayoutAux.
Import Diagram Layout.
Local Open Scope Q_scope.

(** [v'] is [v] up to its level. *)
Definition same_but_level (v v' : LayoutNode) : Prop :=
  layout_id v' = layout_id v /\ node v' = node v /\
  children v' = children v /\ parents v' = parents v.

(** An entry after the traversal: same key and fields, and a level that
    is the old one or, for a node with parents, at least 1. *)
Definition settled (kv kv' : string * LayoutNode) : Prop :=
  fst kv' = fst kv /\ same_but_level (snd kv) (snd kv') /\
  (level (snd kv') = level (snd kv) \/ (parents (snd kv) <> [] /\ (1 <= level (snd kv'))%Z)).

(** An entry after the edges are linked: same key, node and level. *)
Definition linked (kv kv' : string * LayoutNode) : Prop :=
  fst kv' = fst kv /\ layout_id (snd kv') = layout_id (snd kv) /\
  node (snd kv') = node (snd kv) /\ level (snd kv') = level (snd kv).

(** The layout nodes of a level, in map order. *)
Definition atLevel (lv : Z) (vs : list LayoutNode) : list LayoutNode :=
  List.filter (fun v => bool_decide (level v = lv)) vs.

Definition groupStep (levelGroups : list (Z * list LayoutNode)) (layoutNode : LayoutNode) :=
  JsMap.update (fun levelNodes => levelNodes ++ [layoutNode]) (level layoutNode)
    (if negb (JsMap.has (level layoutNode) levelGroups)
     then JsMap.set (level layoutNode) [] levelGroups else levelGroups).

(** Where the row of [levelNodes] starts. *)
Definition rowStart (levelNodes : list LayoutNode) : Q :=
  START_X -
  (fold_left (fun sum ln => sum + width (dimensions (node ln))) levelNodes 0 +
   (inject_Z (Z.of_nat (length levelNodes)) - 1) * NODE_SPACING) / 2.

(** [currentX] after the nodes of [pre]. *)
Definition advance (pre : list LayoutNode) (currentX : Q) : Q :=
  fold_left (fun cx ln => cx + (width (dimensions (node ln)) + NODE_SPACING)) pre currentX.

Definition positionsOf (levelNodes : list LayoutNode) : list loc :=
  map (fun ln => position (node ln)) levelNodes.

Definition freshNode (n : DiagramNode loc) : LayoutNode :=
  {| layout_id := id n; node := n; level := 0; children := []; parents := [] |}.

(** The nodes of a level, in document order, from the levels that
    [layoutLevels] returns. *)
Definition levelRow (l : Z) (nodes : list (DiagramNode loc)) (levels : list (string * Z))
    : list (DiagramNode loc) :=
  map fst (List.filter (fun nl => bool_decide (snd (snd nl) = l)) (zip nodes levels)).

Definition rowStartNodes (row : list (DiagramNode loc)) : Q :=
  START_X -
  (fold_left (fun sum m => sum + width (dimensions m)) row 0 +
   (inject_Z (Z.of_nat (length row)) - 1) * NODE_SPACING) / 2.

Definition advanceNodes (pre : list (DiagramNode loc)) (currentX : Q) : Q :=
  fold_left (fun cx m => cx + (width (dimensions m) + NODE_SPACING)) pre currentX.

End LayoutAux.

(** ** Runs of edits *)

Module EditorAux.
Import DiagramEditor.

Section Runs.
Context {D : Type}.

(** A run of edits, each through [updateDiagramData]. *)
Definition edits (ds : list D) (st : State D) : State D :=
  fold_left (fun acc d => updateDiagramData d acc) ds st.

End Runs.

End EditorAux.

(** ** components/DiagramEditor.tsx: merging a generated diagram *)

Module Generate.
Import Diagram Layout.
Local Open Scope Q_scope.






End Generate.

(** ** lib/drawing.ts *)

Module Drawing.
Import Diagram.
Local Open Scope Q_scope.
Local Open Scope string_scope.
Local Open Scope list_scope.

(** The word-wrap loop of [drawText].  [measure] is
    [ctx.measureText(s).width]; [words] is [text.split(' ')].  The state
    is the lines pushed so far and [currentLine]. *)
Definition wrapStep (measure : string -> Q) (maxWidth : Q)
    (acc : list string * string) (word : string) : list string * string :=
  let '(lines, currentLine) := acc in
  let nonEmpty := negb (String.eqb currentLine "") in
  let testLine :=
    if nonEmpty then String.append currentLine (String.append " " word) else word in
  if negb (Qle_bool (measure testLine) maxWidth) && nonEmpty then
    (lines ++ [currentLine], word)
  else (lines, testLine).

Definition wrapLines (measure : string -> Q) (maxWidth : Q) (words : list string)
    : list string :=
  let '(lines, currentLine) := fold_left (wrapStep measure maxWidth) words ([], "") in
  if negb (String.eqb currentLine "") then lines ++ [currentLine] else lines.

(** [node.dimensions.width - 20] *)
Definition textMaxWidth (n : DiagramNode Position) : Q := width (dimensions n) - 20.

(** JavaScript's [a % b] on numbers: the remainder of the division
    truncated toward zero. *)
Definition Qtrunc (q : Q) : Z := if Qlt_le_dec q 0 then Qceiling q else Qfloor q.

Definition jsRem (a b : Q) : Q := a - b * inject_Z (Qtrunc (a / b)).

(** [startX] of [drawGrid]: [(offsetX % gridSize + gridSize) % gridSize]
    with [gridSize = 20 * scale]. *)
Definition gridSize (scale : Q) : Q := 20 * scale.

Definition gridStart (offset scale : Q) : Q :=
  jsRem (jsRem offset (gridSize scale) + gridSize scale) (gridSize scale).

(** The lines of the wrap loop's state: the lines pushed so far and
    then [currentLine], unless it is empty. *)
Definition linesOf (acc : list string * string) : list string :=
  if String.eqb (snd acc) "" then fst acc else fst acc ++ [snd acc].

(** A text measure for the samples: 8 units for each character. *)
Definition monospace (s : string) : Q := inject_Z (Z.of_nat (String.length s)) * 8.

End Drawing.

(** ** More sample documents *)

Module LayoutSamples.
Import Diagram Layout.
Local Open Scope Q_scope.

(** A root with two children, each node with a position object of its
    own. *)
Definition fork : DiagramData loc :=
  let mk i l w :=
    {| id := i; type := rectangle; text := i; position := l;
       dimensions := {| width := w; height := 80 |}; imageUrl := None |} in
  let edge i a b := {| edge_id := i; from := a; to := b; label := None |} in
  {| nodes := [mk "A" 0%nat 180; mk "B" 1%nat 180; mk "C" 2%nat 120];
     edges := [edge "e1" "A" "B"; edge "e2" "A" "C"];
     paths := Some [] |}.

(** A store with every position object at the origin. *)
Definition origin : Store := fun _ => {| x := 0; y := 0 |}.

(** Two nodes and no edge, both with the id a. *)
Definition twins : DiagramData loc :=
  {| nodes :=
       [ {| id := "a"; type := rectangle; text := "A"; position := 0%nat;
            dimensions := {| width := 180; height := 80 |}; imageUrl := None |};
         {| id := "a"; type := ellipse; text := "B"; position := 1%nat;
            dimensions := {| width := 101; height := 80 |}; imageUrl := None |} ];
     edges := [];
     paths := Some [] |}.

End LayoutSamples.

(** ** More sample canvas inputs *)

Module CanvasSamples.
Import Diagram Canvas CanvasExamples.
Local Open Scope Q_scope.
Local Open Scope string_scope.
Local Open Scope list_scope.

(** The chain with nothing selected and the given tool. *)
Definition withTool (tool : Tool) : Props :=
  {| diagramData := chain; selectedNodeIds := [];
     selectedTool := tool; penColor := "#000000" |}.

(** A rectangle being drawn from (100, 100). *)
Definition drawingFrom100 : State :=
  setDrawStart (pt 100 100) (setIsDrawing true initialState).

(** Node b being dragged, grabbed 10 right and 10 below its corner. *)
Definition dragging_b : State :=
  setDragOffsets [("b", pt 10 10)] (setIsDragging true initialState).

(** The same drag with a preview position for b. *)
Definition dragged_b : State :=
  setTempNodePositions [("b", pt 500 300)] dragging_b.

(** A pan in progress, last seen at (200, 200). *)
Definition panning : State :=
  setLastMousePos (pt 200 200) (setIsPanning true initialState).

(** A selection box around a and b. *)
Definition selecting : State :=
  setSelectionBox (Some (pt 50 50, pt 650 250)) (setIsSelecting true initialState).

Definition click (px py : Q) (ctrl : bool) : MouseEvent :=
  {| button := 0; clientX := px; clientY := py; ctrlKey := ctrl; metaKey := false |}.

End CanvasSamples.

(** * Properties *)

(** ** Canvas bounds *)

Module BoundariesSpec.
Import Diagram Boundaries.
Local Open Scope Q_scope.

Lemma Qmin_cases (a b : Q) :
  (a <= b /\ Qmin a b = a) \/ (b < a /\ Qmin a b = b).
Proof.
  unfold Qmin, GenericMinMax.gmin.
  destruct (a ?= b) eqn:E.
  - apply Qeq_alt in E. left. split; [lra | reflexivity].
  - apply Qlt_alt in E. left. split; [lra | reflexivity].
  - apply Qgt_alt in E. right. split; [lra | reflexivity].
Qed.

Lemma Qmax_cases (a b : Q) :
  (b <= a /\ Qmax a b = a) \/ (a < b /\ Qmax a b = b).
Proof.
  unfold Qmax, GenericMinMax.gmax.
  destruct (a ?= b) eqn:E.
  - apply Qeq_alt in E. left. split; [lra | reflexivity].
  - apply Qlt_alt in E. right. split; [lra | reflexivity].
  - apply Qgt_alt in E. left. split; [lra | reflexivity].
Qed.

(** One axis of [constrainPosition]. *)
Lemma clampAxis_idempotent (lo hi v : Q) :
  Qmax lo (Qmin (Qmax lo (Qmin v hi)) hi) = Qmax lo (Qmin v hi).
Proof.
  destruct (Qmin_cases v hi) as [[Hm ->] | [Hm ->]];
  destruct (Qmax_cases lo v) as [[Hx Ex] | [Hx Ex]];
  destruct (Qmax_cases lo hi) as [[Hh Eh] | [Hh Eh]];
  rewrite ?Ex, ?Eh;
  repeat match goal with
  | |- context [Qmin ?a ?b] =>
      destruct (Qmin_cases a b) as [[? ->] | [? ->]]
  | |- context [Qmax ?a ?b] =>
      destruct (Qmax_cases a b) as [[? ->] | [? ->]]
  end; try reflexivity; try lra.
Qed.

Lemma clampAxis_range (lo hi v : Q) :
  lo <= hi -> lo <= Qmax lo (Qmin v hi) /\ Qmax lo (Qmin v hi) <= hi.
Proof.
  intros Hlh.
  destruct (Qmin_cases v hi) as [[Hm ->] | [Hm ->]];
  match goal with
  | |- context [Qmax ?a ?b] =>
      destruct (Qmax_cases a b) as [[? ->] | [? ->]]
  end; lra.
Qed.

(** C5: [constrainPosition] is idempotent, and whenever the shape fits in
    the canvas rectangle ([width <= maxX - minX], [height <= maxY - minY])
    the constrained position passes [isWithinBounds]. *)
Theorem constrainPosition_idempotent_within_bounds :
  (forall p d, constrainPosition (constrainPosition p d) d = constrainPosition p d) /\
  (forall p d,
      width d <= maxX - minX ->
      height d <= maxY - minY ->
      isWithinBounds (constrainPosition p d) d = true).
Proof.
  split.
  - intros p d. unfold constrainPosition. cbn [x y]. f_equal.
    + apply (clampAxis_idempotent minX (maxX - width d)).
    + apply (clampAxis_idempotent minY (maxY - height d)).
  - intros p d Hw Hh.
    destruct (clampAxis_range minX (maxX - width d) (x p)) as [Hx1 Hx2]; [lra|].
    destruct (clampAxis_range minY (maxY - height d) (y p)) as [Hy1 Hy2]; [lra|].
    unfold isWithinBounds, constrainPosition. cbn [x y].
    rewrite !andb_true_iff, !Qle_bool_iff.
    repeat split; lra.
Qed.

Lemma constrainPosition_idempotent_within_bounds_witness :
  isWithinBounds
    (constrainPosition {| x := 3000; y := -7 |} {| width := 180; height := 80 |})
    {| width := 180; height := 80 |} = true.
Proof.
  apply (proj2 constrainPosition_idempotent_within_bounds);
    unfold Qle; simpl; lia.
Defined.

End BoundariesSpec.

(** ** Undo/redo history *)

Module HistorySpec.
Import History.

Section Facts.
Context {D : Type}.
Implicit Types (h : Hook D) (d : D) (ds : list D).

Lemma snoc_cases (l : list D) : l <> [] -> exists l' a, l = l' ++ [a].
Proof.
  induction l as [|b l IH] using rev_ind; [congruence | eauto].
Qed.

Lemma undo_snoc h pastInit prev :
  past (history h) = pastInit ++ [prev] ->
  undo h =
    (Some prev,
     {| history := {| past := pastInit; present := prev;
                      future := present (history h) :: future (history h) |};
        isUndoRedoAction := true |}).
Proof.
  intros E. unfold undo, canUndo. rewrite E.
  rewrite length_app, Nat.add_1_r. cbn [Nat.ltb Nat.leb negb].
  replace (S (length pastInit) - 1)%nat with (length pastInit) by lia.
  rewrite list_lookup_middle by reflexivity.
  rewrite take_app_length. reflexivity.
Qed.

Lemma redo_cons h f fs :
  future (history h) = f :: fs ->
  redo h =
    (Some f,
     {| history := {| past := past (history h) ++ [present (history h)];
                      present := f; future := fs |};
        isUndoRedoAction := true |}).
Proof.
  intros E. unfold redo, canRedo. rewrite E. reflexivity.
Qed.

Lemma commit_unfold d h :
  isUndoRedoAction h = false ->
  commit d h =
    {| history := {| past := shiftIfOver (past (history h) ++ [present (history h)]);
                     present := d; future := [] |};
       isUndoRedoAction := false |}.
Proof.
  intros E. unfold commit, setState. rewrite E. reflexivity.
Qed.

Lemma shiftIfOver_nonempty (l : list D) a : shiftIfOver (l ++ [a]) <> [].
Proof.
  unfold shiftIfOver, MAX_HISTORY_SIZE.
  destruct (50 <? length (l ++ [a])) eqn:E.
  - apply Nat.ltb_lt in E. intros H. apply (f_equal length) in H.
    rewrite length_drop in H. simpl in H. lia.
  - destruct l; discriminate.
Qed.

Lemma shiftIfOver_last (l : list D) a : last (shiftIfOver (l ++ [a])) = Some a.
Proof.
  unfold shiftIfOver, MAX_HISTORY_SIZE.
  destruct (50 <? length (l ++ [a])) eqn:E; [|apply last_snoc].
  apply Nat.ltb_lt in E. rewrite length_app in E. simpl in E.
  destruct l as [|b l]; [simpl in E; lia|].
  simpl. rewrite drop_0. apply last_snoc.
Qed.

(** C1: from any history state with a non-empty past, [undo] makes the
    last entry of [past] the present and pushes the old present on the
    front of [future], and the [redo] that follows gives back the same
    past, present and future.  After a commit, that last entry is the
    present the commit replaced. *)
Theorem undo_redo_round_trip :
  (forall h,
      past (history h) <> [] ->
      exists pastInit prev h1 h2,
        past (history h) = pastInit ++ [prev] /\
        undo h = (Some prev, h1) /\
        history h1 =
          {| past := pastInit; present := prev;
             future := present (history h) :: future (history h) |} /\
        redo h1 = (Some (present (history h)), h2) /\
        history h2 = history h) /\
  (forall h d,
      isUndoRedoAction h = false ->
      fst (undo (commit d h)) = Some (present (history h))).
Proof.
  split.
  - intros h Hne.
    destruct (snoc_cases _ Hne) as (pastInit & prev & E).
    eexists pastInit, prev, _, _.
    split; [exact E|].
    split; [apply undo_snoc, E|].
    split; [reflexivity|].
    split; [apply redo_cons; reflexivity|].
    cbn. rewrite <- E. destruct (history h); reflexivity.
  - intros h d Hflag.
    rewrite (commit_unfold _ _ Hflag).
    destruct (snoc_cases _ (shiftIfOver_nonempty (past (history h)) (present (history h))))
      as (l' & a & E).
    pose proof (shiftIfOver_last (past (history h)) (present (history h))) as Hl.
    rewrite E, last_snoc in Hl. injection Hl as ->.
    erewrite undo_snoc by (cbn; exact E). reflexivity.
Qed.

(** The bound is kept by a stronger invariant: [redo] pushes onto [past]
    without a check, but only what [undo] took off it. *)
Lemma step_bounded h h' :
  step h h' ->
  length (past (history h)) + length (future (history h)) <= MAX_HISTORY_SIZE ->
  length (past (history h')) + length (future (history h')) <= MAX_HISTORY_SIZE.
Proof.
  unfold MAX_HISTORY_SIZE. intros Hstep Hb. destruct Hstep as [d skip h|h|h|d h|h].
  - unfold setState. destruct (skip || isUndoRedoAction h); cbn; [exact Hb|].
    unfold shiftIfOver, MAX_HISTORY_SIZE.
    destruct (50 <? _) eqn:E; rewrite ?length_drop, length_app; cbn; [lia|].
    apply Nat.ltb_ge in E. rewrite length_app in E. cbn in E. lia.
  - unfold undo. destruct (negb (canUndo h)); [exact Hb|].
    destruct (past (history h) !! _) eqn:E; [|exact Hb].
    apply lookup_lt_Some in E. cbn. rewrite length_take. lia.
  - unfold redo. destruct (negb (canRedo h)); [exact Hb|].
    destruct (future (history h) !! _) eqn:E; [|exact Hb].
    apply lookup_lt_Some in E. cbn. rewrite length_app, length_drop. cbn. lia.
  - cbn. lia.
  - exact Hb.
Qed.

Lemma reachable_bounded initialState h :
  reachable initialState h ->
  length (past (history h)) + length (future (history h)) <= MAX_HISTORY_SIZE.
Proof.
  induction 1 as [|h h' _ IH Hstep].
  - cbn. unfold MAX_HISTORY_SIZE. lia.
  - exact (step_bounded _ _ Hstep IH).
Qed.

(** What a run of commits leaves: the last 51 of all the states seen, the
    newest as the present and the 50 before it as the past. *)
Lemma commits_window ds : forall h,
  isUndoRedoAction h = false ->
  length (past (history h)) <= 50 ->
  let h' := commits ds h in
  let seen := past (history h) ++ [present (history h)] ++ ds in
  past (history h') ++ [present (history h')] = drop (length seen - 51) seen /\
  length (past (history h')) <= 50.
Proof.
  induction ds as [|d ds IH]; intros h Hflag Hlen; cbn zeta.
  - cbn [commits fold_left]. rewrite app_nil_r, length_app. cbn [length].
    replace (length (past (history h)) + 1 - 51) with 0 by lia.
    rewrite drop_0. auto.
  - change (commits (d :: ds) h) with (commits ds (commit d h)).
    assert (Hflag' : isUndoRedoAction (commit d h) = false)
      by (rewrite commit_unfold by assumption; reflexivity).
    assert (Hpast : past (history (commit d h)) =
                    shiftIfOver (past (history h) ++ [present (history h)]))
      by (rewrite commit_unfold by assumption; reflexivity).
    assert (Hpres : present (history (commit d h)) = d)
      by (rewrite commit_unfold by assumption; reflexivity).
    assert (Hlen' : length (past (history (commit d h))) <= 50).
    { rewrite Hpast. unfold shiftIfOver, MAX_HISTORY_SIZE.
      destruct (50 <? _) eqn:E; rewrite ?length_drop, length_app; cbn; [lia|].
      apply Nat.ltb_ge in E. rewrite length_app in E. cbn in E. lia. }
    destruct (IH _ Hflag' Hlen') as [IH1 IH2]. split; [|exact IH2].
    rewrite IH1, Hpast, Hpres. clear IH IH1 IH2 Hflag' Hpast Hpres Hlen'.
    set (L := past (history h) ++ [present (history h)]).
    assert (HL : length L = length (past (history h)) + 1)
      by (unfold L; rewrite length_app; reflexivity).
    replace (past (history h) ++ [present (history h)] ++ d :: ds)
      with (L ++ [d] ++ ds) by (unfold L; rewrite <- app_assoc; reflexivity).
    unfold shiftIfOver, MAX_HISTORY_SIZE.
    destruct (50 <? length L) eqn:E; [|reflexivity].
    apply Nat.ltb_lt in E.
    assert (HL51 : length L = 51) by lia.
    destruct L as [|a L]; [discriminate|].
    cbn [drop]. rewrite drop_0. cbn [app length] in *.
    rewrite !length_app. cbn [length].
    replace (S (length L + S (length ds)) - 51) with (S (length ds)) by lia.
    replace (length L + S (length ds) - 51) with (length ds) by lia.
    reflexivity.
Qed.

(** C2: [past] never holds more than 50 documents in a state reachable by
    setState (commit or replace-present), undo, redo and reset; and 51
    commits from an initial state leave exactly 50, the one entry dropped
    being the oldest of the buffer, the initial document that the first
    commit pushed. *)
Theorem past_bounded_fifo :
  (forall initialState h,
      reachable initialState h -> length (past (history h)) <= 50) /\
  (forall d0 ds,
      length ds = 51 ->
      let h50 := commits (take 50 ds) (useHistory d0) in
      let h51 := commits ds (useHistory d0) in
      past (history h50) ++ [present (history h50)] = d0 :: take 50 ds /\
      length (past (history h51)) = 50 /\
      past (history h51) = take 50 ds /\
      d0 :: past (history h51) = past (history h50) ++ [present (history h50)]).
Proof.
  split.
  - intros d0 h Hr. pose proof (reachable_bounded _ _ Hr) as Hb.
    unfold MAX_HISTORY_SIZE in Hb. lia.
  - intros d0 ds Hlen. cbn zeta.
    assert (H0 : length (past (history (useHistory d0))) <= 50) by (cbn; lia).
    destruct (commits_window (take 50 ds) (useHistory d0) eq_refl H0) as [W50 _].
    destruct (commits_window ds (useHistory d0) eq_refl H0) as [W51 _].
    cbn [useHistory history past present app length] in W50, W51.
    rewrite length_take, Hlen in W50. cbn in W50.
    rewrite Hlen in W51. cbn in W51. rewrite drop_0 in W51.
    assert (Hsplit : ds = take 50 ds ++ drop 50 ds) by (symmetry; apply take_drop).
    assert (Hd : exists d, drop 50 ds = [d]).
    { assert (Hl : length (drop 50 ds) = 1) by (rewrite length_drop; lia).
      destruct (drop 50 ds) as [|d [|? ?]]; try discriminate. eauto. }
    destruct Hd as [d Hd]. rewrite Hd in Hsplit.
    set (pre := take 50 ds) in *.
    assert (Hp : past (history (commits ds (useHistory d0))) = take 50 ds).
    { rewrite Hsplit in W51 at 3. apply app_inj_tail in W51. apply W51. }
    repeat split.
    + exact W50.
    + rewrite Hp. unfold pre. rewrite length_take. lia.
    + exact Hp.
    + rewrite Hp, W50. reflexivity.
Qed.

End Facts.

Lemma undo_redo_round_trip_witness :
  let h := commit 2%nat (commit 1%nat (useHistory 0%nat)) in
  exists pastInit prev h1 h2,
    past (history h) = pastInit ++ [prev] /\
    undo h = (Some prev, h1) /\
    history h1 =
      {| past := pastInit; present := prev;
         future := present (history h) :: future (history h) |} /\
    redo h1 = (Some (present (history h)), h2) /\
    history h2 = history h.
Proof.
  apply (proj1 undo_redo_round_trip). discriminate.
Defined.

Lemma past_bounded_fifo_witness :
  let h50 := commits (take 50 (seq 1 51)) (useHistory 0%nat) in
  let h51 := commits (seq 1 51) (useHistory 0%nat) in
  past (history h50) ++ [present (history h50)] = 0%nat :: take 50 (seq 1 51) /\
  length (past (history h51)) = 50%nat /\
  past (history h51) = take 50 (seq 1 51) /\
  0%nat :: past (history h51) = past (history h50) ++ [present (history h50)].
Proof.
  exact (proj2 past_bounded_fifo 0%nat (seq 1 51) eq_refl).
Defined.

End HistorySpec.

(** ** Insertion-ordered maps *)

Module JsMapFacts.
Import JsMap.

Section Facts.
Context {K V : Type} `{EqDecision K}.
Implicit Types (k : K) (v : V) (m : list (K * V)).

Lemma get_Some_elem k v m : get k m = Some v -> (k, v) ∈ m.
Proof.
  induction m as [|[k' v'] m IH]; cbn; [discriminate|].
  destruct (decide (k' = k)) as [->|Hne].
  - intros [= ->]. left.
  - intros E. right. auto.
Qed.

Lemma elem_get_is_Some k v m : (k, v) ∈ m -> is_Some (get k m).
Proof.
  induction m as [|[k' v'] m IH]; cbn.
  - intros Hin. inversion Hin.
  - intros Hin. destruct (decide (k' = k)); [eauto|].
    apply IH. inversion Hin; subst; [congruence | assumption].
Qed.

Lemma set_elem k v k' v' m :
  (k', v') ∈ set k v m -> (k', v') = (k, v) \/ (k', v') ∈ m.
Proof.
  induction m as [|[k0 v0] m IH]; cbn.
  - intros Hin. inversion Hin; subst; [auto | match goal with H : _ ∈ [] |- _ => inversion H end].
  - destruct (decide (k0 = k)).
    + intros Hin. inversion Hin; subst; [auto|]. right. right. assumption.
    + intros Hin. inversion Hin; subst.
      * right. left.
      * destruct IH as [?|?]; auto. right. right. assumption.
Qed.

Lemma set_not_nil k v m : set k v m <> [].
Proof. destruct m as [|[k0 v0] m]; cbn; [|destruct (decide (k0 = k))]; discriminate. Qed.

Lemma update_elem f k k' v' m :
  (k', v') ∈ update f k m ->
  (k', v') ∈ m \/ exists v0, (k', v0) ∈ m /\ v' = f v0.
Proof.
  induction m as [|[k0 v0] m IH]; cbn.
  - intros Hin. inversion Hin.
  - destruct (decide (k0 = k)).
    + intros Hin. inversion Hin; subst.
      * right. exists v0. split; [left | reflexivity].
      * left. right. assumption.
    + intros Hin. inversion Hin; subst.
      * left. left.
      * destruct IH as [?|(v1 & ? & ?)]; auto.
        -- left. right. assumption.
        -- right. exists v1. split; [right; assumption | assumption].
Qed.

Lemma get_update f k k' m :
  get k' (update f k m) = if decide (k' = k) then f <$> get k' m else get k' m.
Proof.
  induction m as [|[k0 v0] m IH]; cbn.
  - destruct (decide (k' = k)); reflexivity.
  - destruct (decide (k0 = k)) as [->|Hne]; cbn.
    + destruct (decide (k = k')) as [->|Hne'].
      * rewrite decide_True by reflexivity. reflexivity.
      * rewrite decide_False by congruence. reflexivity.
    + destruct (decide (k0 = k')) as [->|Hne'].
      * rewrite decide_False by congruence. reflexivity.
      * exact IH.
Qed.

Lemma get_update_is_Some f k k' m :
  is_Some (get k' (update f k m)) <-> is_Some (get k' m).
Proof.
  rewrite get_update. destruct (decide (k' = k)); [|reflexivity].
  rewrite fmap_is_Some. reflexivity.
Qed.

Lemma length_update f k m : length (update f k m) = length m.
Proof.
  induction m as [|[k0 v0] m IH]; cbn; [reflexivity|].
  destruct (decide (k0 = k)); cbn; congruence.
Qed.

End Facts.

End JsMapFacts.

(** ** Layout *)

Module LayoutSpec.
Import Diagram Layout LayoutInv LayoutExamples JsMapFacts.

Lemma fold_left_inv {A B} (P : A -> Prop) (f : A -> B -> A) (l : list B) :
  forall a, P a -> (forall a b, P a -> P (f a b)) -> P (fold_left f l a).
Proof.
  induction l as [|b l IH]; cbn; intros a Ha Hf; [exact Ha|].
  apply IH; auto.
Qed.

Lemma known_update f k nodeMap c :
  known (JsMap.update f k nodeMap) c <-> known nodeMap c.
Proof. apply get_update_is_Some. Qed.

Lemma keyed_update f k nodeMap :
  (forall v, layout_id (f v) = layout_id v) ->
  keyed nodeMap -> keyed (JsMap.update f k nodeMap).
Proof.
  intros Hf Hk. unfold keyed in *. rewrite Forall_forall in Hk.
  apply Forall_forall. intros [k' v'] Hin. apply update_elem in Hin as [Hin|(v0 & Hin & ->)].
  - exact (Hk _ Hin).
  - cbn. rewrite Hf. exact (Hk _ Hin).
Qed.

Lemma closed_update f k nodeMap :
  (forall v c, c ∈ children (f v) -> c ∈ children v \/ known nodeMap c) ->
  closed nodeMap -> closed (JsMap.update f k nodeMap).
Proof.
  intros Hf Hc. unfold closed in *. rewrite Forall_forall in Hc.
  apply Forall_forall. intros [k' v'] Hin. apply Forall_forall. intros c Hcin.
  apply known_update.
  apply update_elem in Hin as [Hin|(v0 & Hin & ->)].
  - specialize (Hc _ Hin). rewrite Forall_forall in Hc. auto.
  - cbn in Hcin. specialize (Hc _ Hin). rewrite Forall_forall in Hc.
    destruct (Hf _ _ Hcin); auto.
Qed.

Lemma get_keyed k v nodeMap :
  keyed nodeMap -> JsMap.get k nodeMap = Some v -> layout_id v = k.
Proof.
  intros Hk E. apply get_Some_elem in E.
  unfold keyed in Hk. rewrite Forall_forall in Hk. exact (Hk _ E).
Qed.

Lemma get_closed k v nodeMap :
  closed nodeMap -> JsMap.get k nodeMap = Some v ->
  Forall (known nodeMap) (children v).
Proof.
  intros Hc E. apply get_Some_elem in E.
  unfold closed in Hc. rewrite Forall_forall in Hc. exact (Hc _ E).
Qed.

Lemma buildNodeMap_inv nodes :
  keyed (buildNodeMap nodes) /\ closed (buildNodeMap nodes).
Proof.
  assert (H : Forall (fun kv : string * LayoutNode =>
                        layout_id (snd kv) = fst kv /\ children (snd kv) = [])
                     (buildNodeMap nodes)).
  { unfold buildNodeMap. apply fold_left_inv; [constructor|].
    intros m n Hm. rewrite Forall_forall in Hm. apply Forall_forall. intros [k v] Hin.
    apply set_elem in Hin as [[= -> ->]|Hin]; [cbn; auto | exact (Hm _ Hin)]. }
  unfold keyed, closed. rewrite Forall_forall in H. split.
  - apply Forall_forall. intros kv Hin. apply (H _ Hin).
  - apply Forall_forall. intros kv Hin. destruct (H _ Hin) as [_ ->]. constructor.
Qed.

Lemma buildNodeMap_not_nil n nodes : buildNodeMap (n :: nodes) <> [].
Proof.
  unfold buildNodeMap. cbn [fold_left].
  apply (fold_left_inv (fun m => m <> [])); [discriminate|].
  intros m b _. apply set_not_nil.
Qed.

Lemma linkEdge_inv nodeMap edge :
  keyed nodeMap /\ closed nodeMap ->
  keyed (linkEdge nodeMap edge) /\ closed (linkEdge nodeMap edge).
Proof.
  intros [Hk Hc]. unfold linkEdge.
  destruct (JsMap.get (from edge) nodeMap) as [from_|] eqn:Ef; [|auto].
  destruct (JsMap.get (to edge) nodeMap) as [to_|] eqn:Et; [|auto].
  assert (Hto : known nodeMap (layout_id to_)).
  { rewrite (get_keyed _ _ _ Hk Et). unfold known. rewrite Et. eauto. }
  split.
  - apply keyed_update; [reflexivity|]. apply keyed_update; [reflexivity | exact Hk].
  - apply closed_update; [cbn; auto|].
    apply closed_update; [|exact Hc].
    intros v c Hin. cbn in Hin. apply elem_of_app in Hin as [Hin|Hin]; [auto|].
    apply list_elem_of_singleton in Hin as ->. auto.
Qed.

Lemma linkEdge_length nodeMap edge : length (linkEdge nodeMap edge) = length nodeMap.
Proof.
  unfold linkEdge.
  destruct (JsMap.get (from edge) nodeMap); [|reflexivity].
  destruct (JsMap.get (to edge) nodeMap); [|reflexivity].
  rewrite !length_update. reflexivity.
Qed.

Lemma linkEdges_inv edges nodeMap :
  keyed nodeMap /\ closed nodeMap ->
  keyed (linkEdges edges nodeMap) /\ closed (linkEdges edges nodeMap).
Proof.
  intros H. unfold linkEdges. apply fold_left_inv; [exact H|].
  intros m e. apply linkEdge_inv.
Qed.

Lemma linkEdges_length edges nodeMap :
  length (linkEdges edges nodeMap) = length nodeMap.
Proof.
  unfold linkEdges. revert nodeMap.
  induction edges as [|e edges IH]; intros m; cbn; [reflexivity|].
  rewrite IH. apply linkEdge_length.
Qed.

Lemma selectRoots_known nodeMap :
  keyed nodeMap -> nodeMap <> [] ->
  exists rootNodes,
    selectRoots nodeMap = Some rootNodes /\
    Forall (known nodeMap) (map layout_id rootNodes).
Proof.
  intros Hk Hne.
  assert (Hval : forall v, v ∈ JsMap.values nodeMap -> known nodeMap (layout_id v)).
  { intros v Hin. unfold JsMap.values in Hin.
    apply list_elem_of_fmap in Hin as ([k v'] & -> & Hin). cbn.
    unfold keyed in Hk. rewrite Forall_forall in Hk.
    pose proof (Hk _ Hin) as Hid. cbn in Hid. rewrite Hid.
    exact (elem_get_is_Some _ _ _ Hin). }
  unfold selectRoots.
  set (rootNodes := List.filter _ _).
  assert (Hroots : forall v, v ∈ rootNodes -> v ∈ JsMap.values nodeMap).
  { intros v Hin. apply list_elem_of_In in Hin. apply filter_In in Hin as [Hin _].
    apply list_elem_of_In. exact Hin. }
  destruct (length rootNodes =? 0)%nat.
  - destruct nodeMap as [|[k v] m]; [congruence|]. cbn.
    eexists. split; [reflexivity|].
    rewrite Forall_fmap, Forall_forall. intros r Hin. cbn.
    apply elem_of_app in Hin as [Hin|Hin].
    + apply Hval, Hroots, Hin.
    + apply list_elem_of_singleton in Hin as ->. apply Hval. left.
  - eexists. split; [reflexivity|].
    rewrite Forall_fmap, Forall_forall. intros r Hin. apply Hval, Hroots, Hin.
Qed.

Lemma pending_update f k visited nodeMap :
  (forall v, children (f v) = children v) ->
  pending visited (JsMap.update f k nodeMap) = pending visited nodeMap.
Proof.
  intros Hf. unfold pending.
  induction nodeMap as [|[k0 v0] m IH]; cbn; [reflexivity|].
  destruct (decide (k0 = k)); cbn; [rewrite Hf; reflexivity|].
  rewrite IH. reflexivity.
Qed.

Lemma pending_mono c visited nodeMap :
  (pending ({[c]} ∪ visited) nodeMap <= pending visited nodeMap)%nat.
Proof.
  unfold pending. induction nodeMap as [|[k0 v0] m IH]; cbn; [lia|].
  destruct (decide (k0 ∈ {[c]} ∪ visited)) as [Hin|Hin];
    destruct (decide (k0 ∈ visited)) as [Hin'|Hin']; try lia.
  exfalso. apply Hin. set_solver.
Qed.

Lemma pending_visit c current visited nodeMap :
  JsMap.get c nodeMap = Some current ->
  c ∉ visited ->
  (pending ({[c]} ∪ visited) nodeMap + length (children current)
   <= pending visited nodeMap)%nat.
Proof.
  intros Hget Hnv. induction nodeMap as [|[k0 v0] m IH]; [discriminate|].
  cbn in Hget. unfold pending in *. cbn [sum_list_with fst snd].
  destruct (decide (k0 = c)) as [->|Hne].
  - injection Hget as ->.
    destruct (decide (c ∈ {[c]} ∪ visited)) as [_|Hin]; [|exfalso; set_solver].
    destruct (decide (c ∈ visited)) as [Hin|_]; [contradiction|].
    pose proof (pending_mono c visited m) as Hm. unfold pending in Hm. lia.
  - specialize (IH Hget).
    destruct (decide (k0 ∈ {[c]} ∪ visited)) as [Hin|Hin];
      destruct (decide (k0 ∈ visited)) as [Hin'|Hin']; try lia.
    exfalso. apply Hin. set_solver.
Qed.

Lemma pending_empty nodeMap :
  pending ∅ nodeMap =
  sum_list_with (fun n => length (children n)) (JsMap.values nodeMap).
Proof.
  unfold pending, JsMap.values. induction nodeMap as [|[k v] m IH]; cbn; [reflexivity|].
  destruct (decide (k ∈ (∅ : gset string))) as [Hin|_]; [set_solver|].
  rewrite IH. reflexivity.
Qed.

(** The loop returns: it never reads an id that the map lacks, and the
    queue empties before the fuel does. *)
Lemma bfsLoop_total fuel : forall nodeMap visited queue,
  closed nodeMap ->
  Forall (known nodeMap) queue ->
  (length queue + pending visited nodeMap < fuel)%nat ->
  exists nodeMap', bfsLoop fuel nodeMap visited queue = Ok nodeMap'.
Proof.
  induction fuel as [|fuel IH]; intros nodeMap visited queue Hc Hq Hm; [lia|].
  destruct queue as [|c queue]; cbn [bfsLoop]; [eauto|].
  cbn [length] in Hm. inversion Hq as [|? ? Hkc Hq']; subst.
  destruct (decide (c ∈ visited)) as [Hv|Hv].
  - apply IH; [assumption | assumption | lia].
  - destruct Hkc as [current Hget]. rewrite Hget.
    pose proof (pending_visit _ _ _ _ Hget Hv) as Hp.
    pose proof (get_closed _ _ _ Hc Hget) as Hch.
    destruct (parentLevels nodeMap current) as [|l0 ls].
    + apply IH; [assumption | | rewrite length_app; lia].
      apply Forall_app. auto.
    + apply IH.
      * apply closed_update; [cbn; auto | assumption].
      * apply Forall_app. split; eapply Forall_impl; eauto;
          intros; apply known_update; assumption.
      * rewrite length_app, pending_update by reflexivity. lia.
Qed.

Lemma assignLevels_total nodeMap :
  keyed nodeMap -> closed nodeMap -> nodeMap <> [] ->
  exists nodeMap', assignLevels nodeMap = Ok nodeMap'.
Proof.
  intros Hk Hc Hne. unfold assignLevels.
  destruct (selectRoots_known _ Hk Hne) as (rootNodes & -> & Hr).
  apply bfsLoop_total; [assumption | assumption|].
  unfold bfsFuel. rewrite pending_empty. lia.
Qed.

(** [autoLayout] returns on every store and document. *)
Lemma autoLayout_total s diagramData :
  exists s' out, autoLayout s diagramData = Ok (s', out).
Proof.
  unfold autoLayout. destruct (nodes diagramData) as [|n ns] eqn:En; cbn [length Nat.eqb]; [eauto|].
  destruct (buildNodeMap_inv (n :: ns)) as [Hk Hc].
  destruct (linkEdges_inv (edges diagramData) _ (conj Hk Hc)) as [Hk' Hc'].
  destruct (assignLevels_total (linkEdges (edges diagramData) (buildNodeMap (n :: ns)))) as [nodeMap' ->];
    [assumption | assumption | | eauto].
  intros E. apply (f_equal length) in E. rewrite linkEdges_length in E.
  apply (buildNodeMap_not_nil n ns). destruct (buildNodeMap (n :: ns)); [reflexivity | discriminate].
Qed.

Local Open Scope Q_scope.

(** At each location a row of placements either leaves the store alone or
    stores a position that does not depend on the store. *)
Lemma placeNodes_shape yv levelNodes : forall currentX (l : loc),
  (forall s, fst (fold_left (placeNode yv) levelNodes (s, currentX)) l = s l) \/
  (exists p, forall s, fst (fold_left (placeNode yv) levelNodes (s, currentX)) l = p).
Proof.
  induction levelNodes as [|ln lns IH]; intros currentX l; cbn [fold_left placeNode].
  - left. reflexivity.
  - destruct (IH (currentX + (width (dimensions (node ln)) + NODE_SPACING)) l) as [Hid|[p Hp]].
    + destruct (decide (l = position (node ln))) as [->|Hne].
      * right. eexists. intros s. rewrite Hid. unfold write_y, write_x.
        rewrite !decide_True by reflexivity. cbn. reflexivity.
      * left. intros s. rewrite Hid. unfold write_y, write_x.
        rewrite !decide_False by assumption. reflexivity.
    + right. exists p. intros s. apply Hp.
Qed.

Lemma placeRows_shape levelGroups : forall (l : loc),
  (forall s, placeRows levelGroups s l = s l) \/
  (exists p, forall s, placeRows levelGroups s l = p).
Proof.
  unfold placeRows.
  induction levelGroups as [|[level levelNodes] rows IH]; intros l; cbn [fold_left].
  - left. reflexivity.
  - destruct (IH l) as [Hid|[p Hp]].
    + unfold placeRow at 2 4.
      destruct (placeNodes_shape
                  (START_Y + inject_Z level * LEVEL_SPACING) levelNodes
                  (START_X -
                   (fold_left (fun sum ln => sum + width (dimensions (node ln))) levelNodes 0 +
                    (inject_Z (Z.of_nat (length levelNodes)) - 1) * NODE_SPACING) / 2) l)
        as [Hid'|[p Hp]].
      * left. intros s. rewrite Hid. apply Hid'.
      * right. exists p. intros s. rewrite Hid. apply Hp.
    + right. exists p. intros s. apply Hp.
Qed.

(** The rows and the returned document are computed from the document
    alone; the store is only written. *)
Lemma autoLayout_factor diagramData :
  exists levelGroups out,
    forall s, autoLayout s diagramData = Ok (placeRows levelGroups s, out).
Proof.
  destruct (autoLayout_total (fun _ => {| x := 0; y := 0 |}) diagramData) as (s' & out & E).
  unfold autoLayout in *.
  destruct (length (nodes diagramData) =? 0)%nat.
  - exists [], diagramData. reflexivity.
  - destruct (assignLevels _) as [nodeMap| |]; try discriminate.
    eexists _, _. reflexivity.
Qed.

(** C8: [autoLayout] returns on every input, and what it returns is fixed
    by the document: a second call on the same document returns the same
    document and leaves every position as the first call left it, and a
    call from any other store returns the same document and agrees on
    every location where the two stores agreed before. *)
Theorem autoLayout_deterministic (s : Store) (diagramData : DiagramData loc) :
  exists s1 out,
    autoLayout s diagramData = Ok (s1, out) /\
    (exists s2, autoLayout s1 diagramData = Ok (s2, out) /\ forall l, s2 l = s1 l) /\
    (forall s', exists s1',
        autoLayout s' diagramData = Ok (s1', out) /\
        forall l, s l = s' l -> s1 l = s1' l).
Proof.
  destruct (autoLayout_factor diagramData) as (levelGroups & out & E).
  exists (placeRows levelGroups s), out. split; [apply E|]. split.
  - eexists. split; [apply E|]. intros l.
    destruct (placeRows_shape levelGroups l) as [Hid|[p Hp]].
    + rewrite !Hid. reflexivity.
    + rewrite !Hp. reflexivity.
  - intros s'. eexists. split; [apply E|]. intros l Hl.
    destruct (placeRows_shape levelGroups l) as [Hid|[p Hp]].
    + rewrite !Hid. exact Hl.
    + rewrite !Hp. reflexivity.
Qed.


Lemma write_xy_same (l : loc) cx yv s :
  write_y l yv (write_x l cx s) l = {| x := cx; y := yv |}.
Proof. unfold write_y, write_x. rewrite !decide_True by reflexivity. reflexivity. Qed.

Lemma write_xy_other (l l' : loc) cx yv s :
  l' <> l -> write_y l yv (write_x l cx s) l' = s l'.
Proof. intros Hne. unfold write_y, write_x. rewrite !decide_False by assumption. reflexivity. Qed.

Lemma bfsLoop_nil fuel nodeMap visited : bfsLoop fuel nodeMap visited [] = Ok nodeMap.
Proof. destruct fuel; reflexivity. Qed.

Lemma bfsLoop_skip fuel nodeMap visited c queue :
  c ∈ visited ->
  bfsLoop (S fuel) nodeMap visited (c :: queue) = bfsLoop fuel nodeMap visited queue.
Proof. intros Hin. cbn [bfsLoop]. rewrite decide_True by assumption. reflexivity. Qed.

Lemma bfsLoop_visit fuel nodeMap visited c queue current :
  c ∉ visited ->
  JsMap.get c nodeMap = Some current ->
  bfsLoop (S fuel) nodeMap visited (c :: queue) =
  bfsLoop fuel
    match parentLevels nodeMap current with
    | [] => nodeMap
    | l0 :: ls => JsMap.update (set_level (Math_max l0 ls + 1)%Z) c nodeMap
    end
    ({[c]} ∪ visited) (queue ++ children current).
Proof.
  intros Hin Hget. cbn [bfsLoop]. rewrite decide_False by assumption.
  rewrite Hget. reflexivity.
Qed.

(** Settle the first [decide] of the goal from the hypotheses. *)
Ltac settle :=
  match goal with
  | |- context [decide (?a = ?b)] =>
      destruct (decide (a = b));
      [ try (exfalso; congruence) | try (exfalso; congruence) ]
  | |- context [decide (?a ∈ ?X)] =>
      let H := fresh "Hmem" in
      destruct (decide (a ∈ X)) as [H|H];
      [ try (exfalso; set_unfold in H; intuition congruence)
      | try (exfalso; apply H; set_unfold; intuition congruence) ]
  end.

(** Evaluate the arithmetic on level numerals. *)
Ltac znum a :=
  lazymatch a with
  | Z0 => idtac
  | Zpos _ => idtac
  | Zneg _ => idtac
  end.

Ltac zcalc :=
  repeat match goal with
  | |- context [(?a + ?b)%Z] =>
      znum a; znum b;
      let v := eval vm_compute in (a + b)%Z in change (a + b)%Z with v
  | |- context [Z.max ?a ?b] =>
      znum a; znum b;
      let v := eval vm_compute in (Z.max a b) in change (Z.max a b) with v
  | |- context [(?a <=? ?b)%Z] =>
      znum a; znum b;
      let v := eval vm_compute in (a <=? b)%Z in change (a <=? b)%Z with v
  end.

(** Run the layout phases on a map whose keys the hypotheses tell apart. *)
Ltac run :=
  repeat (unfold JsMap.has;
          cbn [JsMap.get JsMap.set JsMap.update JsMap.values
               fold_left map List.filter parentLevels Math_max
               layout_id node level children parents fst snd app length
               set_level push_child push_parent negb Nat.eqb lookup list_lookup
               from to];
          zcalc;
          try settle).

(** Two nodes that share an id give one map entry, holding the second
    node: the first node is never placed and keeps the position it came
    with. *)
Lemma two_nodes_shared_id_counterexample :
  exists s',
    autoLayout LayoutSamples.origin LayoutSamples.twins =
      Ok (s', {| nodes := nodes LayoutSamples.twins; edges := []; paths := None |}) /\
    layoutLevels LayoutSamples.twins = Ok [("a", 0%Z)] /\
    s' 0%nat = {| x := 0; y := 0 |} /\
    ~ y (s' 0%nat) == START_Y /\
    ~ x (s' 1%nat) - (x (s' 0%nat) + 180) == NODE_SPACING.
Proof.
  eexists. split; [vm_compute; reflexivity|].
  split; [vm_compute; reflexivity|].
  split; [vm_compute; reflexivity|].
  split; vm_compute; discriminate.
Qed.

(** C9 (as amended): two nodes with different ids and different position
    objects and no edge both get level 0 and the same [y = START_Y]; the
    second node's [x] is the first node's [x] plus the first node's width
    plus [NODE_SPACING], added as [currentX += width + NODE_SPACING] adds
    them, so that with numbers as exact rationals the gap between the
    first node's right edge and the second node's left edge is
    [NODE_SPACING], and the row reads left to right in input order when
    the first width is not negative. *)
Theorem two_nodes_same_row (s : Store) (n1 n2 : DiagramNode loc) ps :
  id n1 <> id n2 ->
  position n1 <> position n2 ->
  let diagramData := {| nodes := [n1; n2]; edges := []; paths := ps |} in
  layoutLevels diagramData = Ok [(id n1, 0%Z); (id n2, 0%Z)] /\
  exists s',
    autoLayout s diagramData =
      Ok (s', {| nodes := [n1; n2]; edges := []; paths := None |}) /\
    y (s' (position n1)) == START_Y /\
    y (s' (position n2)) == START_Y /\
    x (s' (position n2)) =
      x (s' (position n1)) + (width (dimensions n1) + NODE_SPACING) /\
    x (s' (position n2)) - (x (s' (position n1)) + width (dimensions n1)) == NODE_SPACING /\
    (0 <= width (dimensions n1) -> x (s' (position n1)) < x (s' (position n2))).
Proof.
  intros Hid Hpos. cbn zeta.
  set (L1 := {| layout_id := id n1; node := n1; level := 0;
                children := []; parents := [] |}).
  set (L2 := {| layout_id := id n2; node := n2; level := 0;
                children := []; parents := [] |}).
  assert (Hlv : assignLevels (linkEdges [] (buildNodeMap [n1; n2])) =
                Ok [(id n1, L1); (id n2, L2)]).
  { unfold buildNodeMap, linkEdges, assignLevels, selectRoots. run.
    change (bfsFuel _ _) with 3%nat.
    rewrite (bfsLoop_visit _ _ _ _ _ L1); [|set_solver|run; reflexivity].
    unfold L1 at 1. run.
    rewrite (bfsLoop_visit _ _ _ _ _ L2); [|set_solver|run; reflexivity].
    unfold L2 at 1. run.
    apply bfsLoop_nil. }
  assert (Hgr : groupByLevel [(id n1, L1); (id n2, L2)] = [(0%Z, [L1; L2])]).
  { unfold groupByLevel, L1, L2. run. reflexivity. }
  split.
  - unfold layoutLevels. cbn [nodes edges]. rewrite Hlv. reflexivity.
  - unfold autoLayout. cbn [nodes edges length Nat.eqb]. rewrite Hlv, Hgr.
    eexists. split; [reflexivity|].
    unfold placeRows, placeRow. cbn [fold_left placeNode fst].
    rewrite write_xy_same.
    rewrite write_xy_other by assumption. rewrite write_xy_same.
    cbn [x y L1 L2 node].
    split; [|split; [|split; [reflexivity|]]];
      unfold START_X, START_Y, NODE_SPACING, LEVEL_SPACING in *;
      cbv [length Z.of_nat Pos.of_succ_nat Pos.succ inject_Z];
      [lra | lra | split; [|intros Hw]; lra].
Qed.

Lemma two_nodes_same_row_witness :
  let n1 := {| id := "a"; type := rectangle; text := "A"; position := 0%nat;
               dimensions := {| width := 180; height := 80 |}; imageUrl := None |} in
  let n2 := {| id := "b"; type := ellipse; text := "B"; position := 1%nat;
               dimensions := {| width := 101; height := 80 |}; imageUrl := None |} in
  let diagramData := {| nodes := [n1; n2]; edges := []; paths := Some [] |} in
  layoutLevels diagramData = Ok [("a", 0%Z); ("b", 0%Z)] /\
  exists s',
    autoLayout (fun _ => {| x := 0; y := 0 |}) diagramData =
      Ok (s', {| nodes := [n1; n2]; edges := []; paths := None |}) /\
    y (s' 0%nat) == START_Y /\
    y (s' 1%nat) == START_Y /\
    x (s' 1%nat) = x (s' 0%nat) + (180 + NODE_SPACING) /\
    x (s' 1%nat) - (x (s' 0%nat) + 180) == NODE_SPACING /\
    (0 <= 180 -> x (s' 0%nat) < x (s' 1%nat)).
Proof.
  cbn zeta.
  apply (two_nodes_same_row (fun _ => {| x := 0; y := 0 |})
           {| id := "a"; type := rectangle; text := "A"; position := 0%nat;
              dimensions := {| width := 180; height := 80 |}; imageUrl := None |}
           {| id := "b"; type := ellipse; text := "B"; position := 1%nat;
              dimensions := {| width := 101; height := 80 |}; imageUrl := None |}
           (Some [])); cbn; discriminate.
Defined.

(** On the cycle the first node is not left at level 0. *)
Lemma cyclic3_levels_counterexample :
  layoutLevels cyclic3 <> Ok [("A", 0%Z); ("B", 1%Z); ("C", 2%Z)].
Proof. vm_compute. discriminate. Qed.

(** C3 (as amended): on a cycle A -> B -> C -> A the only root is the first
    node in input order, and since a parent that was not visited yet still
    counts with its initial level 0, A gets level 1, B level 2 and C
    level 3. *)
Theorem cyclic3_levels (nA nB nC : DiagramNode loc) i1 i2 i3 l1 l2 l3 ps :
  id nA <> id nB -> id nA <> id nC -> id nB <> id nC ->
  let edge i a b l := {| edge_id := i; from := id a; to := id b; label := l |} in
  let diagramData :=
    {| nodes := [nA; nB; nC];
       edges := [edge i1 nA nB l1; edge i2 nB nC l2; edge i3 nC nA l3];
       paths := ps |} in
  let nodeMap := linkEdges (edges diagramData) (buildNodeMap (nodes diagramData)) in
  (map layout_id <$> selectRoots nodeMap) = Some [id nA] /\
  layoutLevels diagramData = Ok [(id nA, 1%Z); (id nB, 2%Z); (id nC, 3%Z)].
Proof.
  intros HAB HAC HBC. cbn zeta. cbn [nodes edges].
  set (LA := {| layout_id := id nA; node := nA; level := 0;
                children := [id nB]; parents := [id nC] |}).
  set (LB := {| layout_id := id nB; node := nB; level := 0;
                children := [id nC]; parents := [id nA] |}).
  set (LC := {| layout_id := id nC; node := nC; level := 0;
                children := [id nA]; parents := [id nB] |}).
  assert (Hmap : linkEdges
                   [ {| edge_id := i1; from := id nA; to := id nB; label := l1 |};
                     {| edge_id := i2; from := id nB; to := id nC; label := l2 |};
                     {| edge_id := i3; from := id nC; to := id nA; label := l3 |} ]
                   (buildNodeMap [nA; nB; nC]) =
                 [(id nA, LA); (id nB, LB); (id nC, LC)]).
  { unfold buildNodeMap, linkEdges, linkEdge. run. reflexivity. }
  unfold layoutLevels. cbn [nodes edges]. rewrite Hmap. unfold LA, LB, LC. split.
  - unfold selectRoots. run. reflexivity.
  - unfold assignLevels, selectRoots. run.
    change (bfsFuel _ _) with 5%nat.
    erewrite bfsLoop_visit; [|set_solver|run; reflexivity]. run.
    erewrite bfsLoop_visit; [|set_solver|run; reflexivity]. run.
    erewrite bfsLoop_visit; [|set_solver|run; reflexivity]. run.
    rewrite bfsLoop_skip by set_solver.
    rewrite bfsLoop_nil. reflexivity.
Qed.

Lemma cyclic3_levels_witness :
  layoutLevels cyclic3 = Ok [("A", 1%Z); ("B", 2%Z); ("C", 3%Z)].
Proof.
  refine (proj2 (cyclic3_levels _ _ _ "e1" "e2" "e3" None None None None _ _ _));
    cbn; discriminate.
Defined.

(** C10: the returned document holds the input's own node objects, and the
    call has written their positions: the node that was at (0, 0) before
    the call is at (10, 100) after it, in the input document as in the
    returned one. *)
Theorem autoLayout_overwrites_input_position :
  let s0 : Store := fun _ => {| x := 0; y := 0 |} in
  exists s1 out,
    autoLayout s0 single = Ok (s1, out) /\
    nodes out = nodes single /\
    edges out = edges single /\
    x (s1 0%nat) == 10 /\ y (s1 0%nat) == 100 /\
    ~ (x (s1 0%nat) == x (s0 0%nat)).
Proof.
  cbn zeta. eexists _, _. split; [vm_compute; reflexivity|]. 
  repeat split; vm_compute; congruence.
Qed.


End LayoutSpec.

(** ** Canvas handlers *)

Module CanvasSpec.
Import Diagram Boundaries Canvas CanvasExamples.
Local Open Scope string_scope.
Local Open Scope list_scope.

Lemma includes_true ids s : includes ids s = true <-> s ∈ ids.
Proof. unfold includes. apply bool_decide_eq_true. Qed.

Lemma includes_false ids s : includes ids s = false <-> s ∉ ids.
Proof. unfold includes. apply bool_decide_eq_false. Qed.

Lemma elem_of_filter_bool {A} (f : A -> bool) (l : list A) a :
  a ∈ List.filter f l <-> a ∈ l /\ f a = true.
Proof. rewrite !list_elem_of_In. apply filter_In. Qed.

Lemma sublist_filter_bool {A} (f : A -> bool) (l : list A) :
  sublist (List.filter f l) l.
Proof.
  induction l as [|a l IH]; cbn; [constructor|].
  destruct (f a); [apply sublist_skip | apply sublist_cons]; exact IH.
Qed.

(** The document that Delete or Backspace hands to [setDiagramData]. *)
Lemma handleKeyDown_delete key targetIsBody p st :
  key = "Delete" \/ key = "Backspace" ->
  selectedNodeIds p <> [] ->
  truthy (editingTextNode st) = false ->
  handleKeyDown key targetIsBody p st =
    (st,
     [setDiagramData
        (withNodesEdges
           (List.filter (fun n => negb (includes (selectedNodeIds p) (id n)))
              (nodes (diagramData p)))
           (List.filter
              (fun e => negb (includes (selectedNodeIds p) (from e))
                        && negb (includes (selectedNodeIds p) (to e)))
              (edges (diagramData p)))
           (diagramData p));
      onNodeSelect []]).
Proof.
  intros Hkey Hsel Hedit. unfold handleKeyDown. rewrite Hedit.
  destruct (selectedNodeIds p) as [|i ids] eqn:E; [congruence|].
  destruct Hkey as [-> | ->]; reflexivity.
Qed.

(** C6: with a selection that is not empty and no text edit in progress,
    Delete and Backspace hand [setDiagramData] a document that keeps
    exactly the nodes whose id is not selected and exactly the edges with
    neither endpoint selected, in their order and unchanged, and clear the
    selection.  When the selection holds ids of nodes only, the edges kept
    are those that touch no removed node; and a document without dangling
    edges stays so. *)
Theorem delete_cascades key targetIsBody p st :
  key = "Delete" \/ key = "Backspace" ->
  selectedNodeIds p <> [] ->
  truthy (editingTextNode st) = false ->
  let d := diagramData p in
  let sel := selectedNodeIds p in
  exists d',
    handleKeyDown key targetIsBody p st = (st, [setDiagramData d'; onNodeSelect []]) /\
    (forall n, n ∈ nodes d' <-> n ∈ nodes d /\ (id n ∉ sel)) /\
    (forall e, e ∈ edges d' <-> e ∈ edges d /\ (from e ∉ sel) /\ (to e ∉ sel)) /\
    sublist (nodes d') (nodes d) /\
    sublist (edges d') (edges d) /\
    paths d' = paths d /\
    ((forall i, i ∈ sel -> exists n, n ∈ nodes d /\ id n = i) ->
     forall e, e ∈ edges d ->
       (forall n, n ∈ nodes d -> id n ∈ sel -> from e <> id n /\ to e <> id n) ->
       e ∈ edges d') /\
    ((forall e, e ∈ edges d ->
        (exists n, n ∈ nodes d /\ id n = from e) /\
        (exists n, n ∈ nodes d /\ id n = to e)) ->
     forall e, e ∈ edges d' ->
        (exists n, n ∈ nodes d' /\ id n = from e) /\
        (exists n, n ∈ nodes d' /\ id n = to e)).
Proof.
  intros Hkey Hsel Hedit d sel.
  eexists. split; [apply handleKeyDown_delete; assumption|].
  cbn [withNodesEdges nodes edges paths]. fold d sel.
  assert (Hn : forall n,
             n ∈ List.filter (fun n => negb (includes sel (id n))) (nodes d) <->
             n ∈ nodes d /\ (id n ∉ sel)).
  { intros n. rewrite elem_of_filter_bool, negb_true_iff, includes_false. reflexivity. }
  assert (He : forall e,
             e ∈ List.filter
                   (fun e => negb (includes sel (from e)) && negb (includes sel (to e)))
                   (edges d) <->
             e ∈ edges d /\ (from e ∉ sel) /\ (to e ∉ sel)).
  { intros e. rewrite elem_of_filter_bool, andb_true_iff, !negb_true_iff, !includes_false.
    reflexivity. }
  split; [exact Hn|]. split; [exact He|].
  split; [apply sublist_filter_bool|]. split; [apply sublist_filter_bool|].
  split; [reflexivity|]. split.
  - intros Hids e Hin Htouch. apply He. split; [exact Hin|]. split.
    + intros Hf. destruct (Hids _ Hf) as (n & Hnin & Hid).
      destruct (Htouch n Hnin) as [H1 _]; [rewrite Hid; exact Hf|]. congruence.
    + intros Ht. destruct (Hids _ Ht) as (n & Hnin & Hid).
      destruct (Htouch n Hnin) as [_ H2]; [rewrite Hid; exact Ht|]. congruence.
  - intros Hres e Hin. apply He in Hin as (Hin & Hf & Ht).
    destruct (Hres e Hin) as [(n1 & Hn1 & E1) (n2 & Hn2 & E2)]. split.
    + exists n1. split; [|exact E1]. apply Hn. split; [exact Hn1|]. rewrite E1. exact Hf.
    + exists n2. split; [|exact E2]. apply Hn. split; [exact Hn2|]. rewrite E2. exact Ht.
Qed.

Lemma delete_cascades_witness :
  exists d',
    handleKeyDown "Delete" true selecting_b initialState =
      (initialState, [setDiagramData d'; onNodeSelect []]) /\
    (forall n, n ∈ nodes d' <-> n ∈ nodes chain /\ (id n ∉ ["b"])) /\
    (forall e, e ∈ edges d' <-> e ∈ edges chain /\ (from e ∉ ["b"]) /\ (to e ∉ ["b"])) /\
    sublist (nodes d') (nodes chain) /\
    sublist (edges d') (edges chain) /\
    paths d' = paths chain /\
    ((forall i, i ∈ ["b"] -> exists n, n ∈ nodes chain /\ id n = i) ->
     forall e, e ∈ edges chain ->
       (forall n, n ∈ nodes chain -> id n ∈ ["b"] -> from e <> id n /\ to e <> id n) ->
       e ∈ edges d') /\
    ((forall e, e ∈ edges chain ->
        (exists n, n ∈ nodes chain /\ id n = from e) /\
        (exists n, n ∈ nodes chain /\ id n = to e)) ->
     forall e, e ∈ edges d' ->
        (exists n, n ∈ nodes d' /\ id n = from e) /\
        (exists n, n ∈ nodes d' /\ id n = to e)).
Proof.
  apply (delete_cascades "Delete" true selecting_b initialState);
    [left; reflexivity | discriminate | reflexivity].
Defined.

(** A stroke of exactly two points is dropped. *)
Lemma pen_two_points_counterexample :
  let st := stroke [pt 10 10; pt 20 20] in
  length (currentPath st) = 2%nat /\
  snd (handleMouseUp (pt 20 20) "1700000000000" penProps st) = [].
Proof. split; reflexivity. Qed.

(** C4 (as amended): on pointer-up with the pen tool while drawing (and no
    drag in progress), a stroke of more than two points is handed to
    [setDiagramData] as one new path at the end of [paths], with the
    current pen color and width 2, the rest of the document unchanged; a
    stroke of at most two points makes no [setDiagramData] call. *)
Theorem pen_stroke_commit canvasPos now p st :
  selectedTool p = tool_pen ->
  isDrawing st = true ->
  isDragging st = false ->
  ((2 < length (currentPath st))%nat ->
   snd (handleMouseUp canvasPos now p st) =
     [setDiagramData
        {| nodes := nodes (diagramData p);
           edges := edges (diagramData p);
           paths :=
             Some (default [] (paths (diagramData p)) ++
                   [ {| path_id := String.append "path-" now;
                        points := currentPath st;
                        color := penColor p;
                        path_width := 2 |} ]) |}]) /\
  ((length (currentPath st) <= 2)%nat ->
   forall d, setDiagramData d ∉ snd (handleMouseUp canvasPos now p st)).
Proof.
  intros Htool Hdraw Hdrag. unfold handleMouseUp, commitDrag, finishGesture.
  rewrite Htool, Hdraw, Hdrag. cbn [andb bool_decide asNodeType].
  rewrite bool_decide_eq_true_2 by reflexivity. cbn [andb].
  split.
  - intros Hlen. apply Nat.ltb_lt in Hlen. rewrite Hlen. reflexivity.
  - intros Hlen d. apply Nat.ltb_ge in Hlen. rewrite Hlen.
    destruct (isSelecting st); [|cbn; apply not_elem_of_nil].
    destruct (selectionBox st) as [box|]; [|cbn; apply not_elem_of_nil].
    destruct (0 <? length (getNodesInBox p box))%nat; cbn.
    + intros Hin. apply list_elem_of_singleton in Hin. discriminate.
    + apply not_elem_of_nil.
Qed.

Lemma pen_stroke_commit_witness :
  let st := stroke [pt 10 10; pt 20 20; pt 30 25] in
  snd (handleMouseUp (pt 30 25) "1700000000000" penProps st) =
    [setDiagramData
       {| nodes := nodes chain;
          edges := edges chain;
          paths :=
            Some [ {| path_id := "path-1700000000000";
                      points := [pt 10 10; pt 20 20; pt 30 25];
                      color := "#ff0000";
                      path_width := 2 |} ] |}].
Proof.
  cbn zeta.
  refine (proj1 (pen_stroke_commit (pt 30 25) "1700000000000" penProps
                   (stroke [pt 10 10; pt 20 20; pt 30 25]) eq_refl eq_refl eq_refl) _).
  cbn. lia.
Defined.

End CanvasSpec.

(** ** The editor: import *)

Module DiagramEditorSpec.
Import History DiagramEditor.
Local Open Scope string_scope.
Local Open Scope list_scope.

Section Facts.
Context {D : Type} (asDiagramData : json -> D) (nullPropertyMessage : string).
Implicit Types (st : State D).

(** C7: when the parsed file has no member [nodes], or one that is not an
    array, the import is refused: an error message is set, and the
    history (so the current document), the selection, the pending save
    and the saves started are as before.  Unless the file is the value
    [null], whose message is the engine's, the message is
    "Invalid diagram format". *)
Theorem import_without_nodes_rejected importedData st :
  (forall items, property "nodes" importedData <> Ok (Some (JArray items))) ->
  let st' := handleImport asDiagramData nullPropertyMessage (Parsed importedData) st in
  DiagramEditor.history st' = DiagramEditor.history st /\
  selectedNodeIds st' = selectedNodeIds st /\
  saveTimeout st' = saveTimeout st /\
  saves st' = saves st /\
  saveStatus st' = saveStatus st /\
  is_Some (error st') /\
  (importedData <> JNull -> error st' = Some "Invalid diagram format").
Proof.
  intros Hno. cbn zeta. unfold handleImport.
  destruct (property "nodes" importedData) as [nodesField| |] eqn:E.
  - assert (Hrej : falsy nodesField || negb (isArray nodesField) = true).
    { destruct nodesField as [[| | | |items|]|]; cbn;
        rewrite ?orb_true_r; try reflexivity.
      exfalso. exact (Hno items eq_refl). }
    rewrite Hrej. cbn. repeat split; eauto.
  - cbn. repeat split; eauto.
    intros Hnn. destruct importedData; cbn in E; congruence.
  - destruct importedData; discriminate.
Qed.

End Facts.

Lemma import_without_nodes_rejected_witness :
  let st :=
    {| DiagramEditor.history := useHistory 7%nat; selectedNodeIds := ["a"]; error := None;
       saveStatus := idle; saveTimeout := None; saves := [] |} in
  let st' :=
    handleImport (fun _ => 0%nat) "Cannot read properties of null"
      (Parsed (JObject [("edges", JArray [])])) st in
  DiagramEditor.history st' = DiagramEditor.history st /\
  selectedNodeIds st' = selectedNodeIds st /\
  saveTimeout st' = saveTimeout st /\
  saves st' = saves st /\
  saveStatus st' = saveStatus st /\
  is_Some (error st') /\
  (JObject [("edges", JArray [])] <> JNull -> error st' = Some "Invalid diagram format").
Proof.
  cbn zeta.
  apply (import_without_nodes_rejected (fun _ => 0%nat) "Cannot read properties of null"
           (JObject [("edges", JArray [])])).
  intros items. cbn. discriminate.
Defined.

End DiagramEditorSpec.

(** ** More on insertion-ordered maps *)

Module JsMapMore.
Import JsMap JsMapFacts.

Section Facts.
Context {K V : Type} `{EqDecision K}.
Implicit Types (k : K) (v : V) (m : list (K * V)).

Lemma get_set_eq k v m : get k (set k v m) = Some v.
Proof.
  induction m as [|[k' v'] m IH]; cbn.
  - rewrite decide_True by reflexivity. reflexivity.
  - destruct (decide (k' = k)) as [->|Hne]; cbn.
    + rewrite decide_True by reflexivity. reflexivity.
    + rewrite decide_False by assumption. exact IH.
Qed.

Lemma get_set_ne k k0 v m : k <> k0 -> get k0 (set k v m) = get k0 m.
Proof.
  intros Hne. induction m as [|[k' v'] m IH]; cbn.
  - rewrite decide_False by assumption. reflexivity.
  - destruct (decide (k' = k)) as [->|Hne']; cbn.
    + rewrite !decide_False by assumption. reflexivity.
    + destruct (decide (k' = k0)); [reflexivity | exact IH].
Qed.

Lemma get_None_keys k m : get k m = None <-> k ∉ map fst m.
Proof.
  induction m as [|[k' v'] m IH]; cbn.
  - split; [intros _ Hin; inversion Hin | reflexivity].
  - destruct (decide (k' = k)) as [->|Hne].
    + split; [discriminate | intros Hni; exfalso; apply Hni; left].
    + rewrite IH. split.
      * intros Hni Hin. inversion Hin; subst; [congruence | contradiction].
      * intros Hni Hin. apply Hni. right. exact Hin.
Qed.

(** A new key goes to the end; a key already there keeps its place. *)
Lemma set_keys k v m :
  map fst (set k v m) = if has k m then map fst m else map fst m ++ [k].
Proof.
  unfold has. induction m as [|[k' v'] m IH]; cbn; [reflexivity|].
  destruct (decide (k' = k)) as [->|Hne]; cbn; [reflexivity|].
  rewrite IH. destruct (get k m); reflexivity.
Qed.

Lemma set_fresh k v m : get k m = None -> set k v m = m ++ [(k, v)].
Proof.
  induction m as [|[k' v'] m IH]; cbn; [reflexivity|].
  destruct (decide (k' = k)); [discriminate|]. intros E. rewrite IH by exact E. reflexivity.
Qed.

Lemma update_keys f k m : map fst (update f k m) = map fst m.
Proof.
  induction m as [|[k' v'] m IH]; cbn; [reflexivity|].
  destruct (decide (k' = k)); cbn; congruence.
Qed.

Lemma elem_get_NoDup k v m : NoDup (map fst m) -> (k, v) ∈ m -> get k m = Some v.
Proof.
  induction m as [|[k' v'] m IH]; cbn; intros Hnd Hin; [inversion Hin|].
  apply NoDup_cons in Hnd as [Hni Hnd].
  inversion Hin; subst.
  - rewrite decide_True by reflexivity. reflexivity.
  - destruct (decide (k' = k)) as [->|Hne]; [|auto].
    exfalso. apply Hni. apply list_elem_of_fmap. exists (k, v). split; [reflexivity | assumption].
Qed.

End Facts.

End JsMapMore.

(** ** More on the canvas boundaries *)

Module BoundariesMore.
Import Diagram Boundaries BoundariesSpec.
Local Open Scope Q_scope.

Lemma Math_round_inject (k : Z) : Math_round (inject_Z k) = inject_Z k.
Proof.
  unfold Math_round. f_equal.
  unfold Qfloor, inject_Z, Qplus. cbn.
  rewrite Z.mul_1_r.
  replace (k * 2 + 1)%Z with (1 + k * 2)%Z by lia.
  rewrite Z.div_add by lia. reflexivity.
Qed.

Lemma Math_round_comp (a b : Q) : a == b -> Math_round a = Math_round b.
Proof.
  intros E. unfold Math_round. f_equal. apply Qfloor_comp. rewrite E. reflexivity.
Qed.

Lemma Math_round_bounds (v : Q) :
  v - (1 # 2) < Math_round v /\ Math_round v <= v + (1 # 2).
Proof.
  unfold Math_round.
  pose proof (Qfloor_le (v + (1 # 2))) as Hle.
  pose proof (Qlt_floor (v + (1 # 2))) as Hlt.
  rewrite inject_Z_plus in Hlt. change (inject_Z 1) with 1 in Hlt.
  split; lra.
Qed.

(** X1: [snapToGrid] is idempotent: a snapped coordinate is a multiple
    of [GRID_SIZE] and snapping it again returns it. *)
Theorem snapToGrid_idempotent (value : Q) :
  snapToGrid (snapToGrid value) = snapToGrid value.
Proof.
  unfold snapToGrid at 1 3.
  set (k := Qfloor (value / GRID_SIZE + (1 # 2))).
  assert (E : snapToGrid value / GRID_SIZE == inject_Z k).
  { unfold snapToGrid, Math_round. fold k. unfold GRID_SIZE. field. }
  rewrite (Math_round_comp _ _ E), Math_round_inject.
  unfold Math_round. fold k. reflexivity.
Qed.

(** X2: with numbers as exact rationals, [snapToGrid] returns the grid
    line nearest to its argument: a multiple of [GRID_SIZE] above
    [value - 10] and at most [value + 10], so that a value halfway between
    two grid lines goes to the upper one, and no multiple of [GRID_SIZE]
    is closer to [value]. *)
Theorem snapToGrid_nearest (value : Q) :
  (exists k : Z, snapToGrid value = inject_Z k * GRID_SIZE) /\
  value - 10 < snapToGrid value /\ snapToGrid value <= value + 10 /\
  forall k : Z,
    Qabs (snapToGrid value - value) <= Qabs (inject_Z k * GRID_SIZE - value).
Proof.
  assert (Hb : value - 10 < snapToGrid value /\ snapToGrid value <= value + 10).
  { unfold snapToGrid.
    destruct (Math_round_bounds (value / GRID_SIZE)) as [H1 H2].
    assert (E : value == (value / GRID_SIZE) * 20) by (unfold GRID_SIZE; field).
    set (t := value / GRID_SIZE) in *.
    unfold GRID_SIZE. split; lra. }
  destruct Hb as [H1 H2].
  split; [eexists; reflexivity|]. split; [exact H1|]. split; [exact H2|].
  intros k.
  assert (Hs : Qabs (snapToGrid value - value) <= 10)
    by (apply Qabs_Qle_condition; lra).
  set (m := Qfloor (value / GRID_SIZE + (1 # 2))).
  assert (Es : snapToGrid value = inject_Z m * GRID_SIZE) by reflexivity.
  rewrite Es in *. unfold GRID_SIZE in *.
  destruct (Z.lt_trichotomy k m) as [Hlt|[->|Hgt]].
  - assert (Hk : inject_Z k <= inject_Z m - 1).
    { assert (Hz : (k <= m + -1)%Z) by lia.
      rewrite Zle_Qle, inject_Z_plus in Hz. exact Hz. }
    pose proof (Qle_Qabs (- (inject_Z k * 20 - value))) as Ha.
    rewrite Qabs_opp in Ha. lra.
  - apply Qle_refl.
  - assert (Hk : inject_Z m + 1 <= inject_Z k).
    { assert (Hz : (m + 1 <= k)%Z) by lia.
      rewrite Zle_Qle, inject_Z_plus in Hz. exact Hz. }
    pose proof (Qle_Qabs (inject_Z k * 20 - value)) as Ha. lra.
Qed.



Lemma isWithinBounds_spec p d :
  isWithinBounds p d = true <->
  minX <= x p /\ minY <= y p /\ x p + width d <= maxX /\ y p + height d <= maxY.
Proof.
  unfold isWithinBounds. rewrite !andb_true_iff, !Qle_bool_iff. tauto.
Qed.

Lemma constrainPosition_in_bounds p d :
  width d <= maxX - minX ->
  height d <= maxY - minY ->
  isWithinBounds (constrainPosition p d) d = true.
Proof.
  intros Hw Hh.
  destruct (clampAxis_range minX (maxX - width d) (x p)) as [Hx1 Hx2]; [lra|].
  destruct (clampAxis_range minY (maxY - height d) (y p)) as [Hy1 Hy2]; [lra|].
  apply isWithinBounds_spec. unfold constrainPosition. cbn [x y].
  repeat split; lra.
Qed.


(** X4: a node wider than the canvas band is pinned to [minX] whatever
    its position, and the constrained position is not within bounds: the
    outer [Math.max] wins over the inner [Math.min]. *)
Theorem constrainPosition_oversized p d :
  maxX - minX < width d ->
  x (constrainPosition p d) = minX /\
  isWithinBounds (constrainPosition p d) d = false.
Proof.
  intros Hw.
  assert (Ex : x (constrainPosition p d) = minX).
  { unfold constrainPosition. cbn [x].
    destruct (Qmin_cases (x p) (maxX - width d)) as [[H1 ->]|[H1 ->]];
    match goal with
    | |- context [Qmax ?a ?b] => destruct (Qmax_cases a b) as [[H2 E]|[H2 E]]
    end; try exact E; unfold minX, maxX in *; lra. }
  split; [exact Ex|].
  apply not_true_is_false. rewrite isWithinBounds_spec, Ex.
  unfold minX, maxX in *. lra.
Qed.


Lemma constrainPosition_oversized_witness :
  x (constrainPosition {| x := 400; y := 100 |} {| width := 3000; height := 80 |}) = minX /\
  isWithinBounds
    (constrainPosition {| x := 400; y := 100 |} {| width := 3000; height := 80 |})
    {| width := 3000; height := 80 |} = false.
Proof.
  apply (constrainPosition_oversized
           {| x := 400; y := 100 |} {| width := 3000; height := 80 |}).
  vm_compute. reflexivity.
Defined.

End BoundariesMore.

(** ** More on the history hook *)

Module HistoryMore.
Import History HistoryAux HistorySpec.

Section Facts.
Context {D : Type}.
Implicit Types (h : Hook D) (d : D) (ds : list D).

Lemma nil_or_snoc (l : list D) : l = [] \/ exists l' a, l = l' ++ [a].
Proof. destruct l as [|b l]; [left; reflexivity | right; apply snoc_cases; discriminate]. Qed.

Lemma undo_commit h d :
  isUndoRedoAction h = false ->
  fst (undo (commit d h)) = Some (present (history h)).
Proof.
  intros Hflag. rewrite (commit_unfold _ _ Hflag).
  destruct (snoc_cases _ (shiftIfOver_nonempty (past (history h)) (present (history h))))
    as (l' & a & E).
  pose proof (shiftIfOver_last (past (history h)) (present (history h))) as Hl.
  rewrite E, last_snoc in Hl. injection Hl as ->.
  erewrite undo_snoc by (cbn; exact E). reflexivity.
Qed.

Lemma undo_nil h : past (history h) = [] -> undo h = (None, h).
Proof. intros E. unfold undo, canUndo. rewrite E. reflexivity. Qed.

Lemma redo_nil h : future (history h) = [] -> redo h = (None, h).
Proof. intros E. unfold redo, canRedo. rewrite E. reflexivity. Qed.

(** X5: [undo] returns [null] exactly when there is no past, [redo]
    exactly when there is no future, and then the hook is left as it
    was, the [isUndoRedoAction] ref included. *)
Theorem undo_nothing_iff h :
  (fst (undo h) = None <-> past (history h) = []) /\
  (past (history h) = [] -> undo h = (None, h)) /\
  (fst (redo h) = None <-> future (history h) = []) /\
  (future (history h) = [] -> redo h = (None, h)).
Proof.
  repeat split.
  - intros Hn. destruct (nil_or_snoc (past (history h))) as [E|(l' & b & E')]; [exact E|].
    rewrite (undo_snoc _ _ _ E') in Hn. discriminate.
  - intros E. rewrite (undo_nil _ E). reflexivity.
  - apply undo_nil.
  - intros Hn. destruct (future (history h)) as [|a l] eqn:E; [reflexivity|].
    rewrite (redo_cons _ _ _ E) in Hn. discriminate.
  - intros E. rewrite (redo_nil _ E). reflexivity.
  - apply redo_nil.
Qed.

(** X6: from any state with a future, [redo] makes the first entry of
    [future] the present and pushes the old present onto [past], and the
    [undo] that follows gives back the same past, present and future. *)
Theorem redo_undo_round_trip h :
  future (history h) <> [] ->
  exists next rest h1 h2,
    future (history h) = next :: rest /\
    redo h = (Some next, h1) /\
    history h1 =
      {| past := past (history h) ++ [present (history h)];
         present := next; future := rest |} /\
    undo h1 = (Some (present (history h)), h2) /\
    history h2 = history h.
Proof.
  intros Hne. destruct (future (history h)) as [|next rest] eqn:E; [congruence|].
  eexists next, rest, _, _.
  split; [reflexivity|].
  split; [apply redo_cons, E|].
  split; [reflexivity|].
  split; [apply undo_snoc; reflexivity|].
  cbn. rewrite <- E. destruct (history h); reflexivity.
Qed.

(** X7: [undo] and [redo] only move the cursor: the documents of the
    hook in time order, past then present then future, are the same list
    before and after. *)
Theorem timeline_preserved h :
  timeline (snd (undo h)) = timeline h /\
  timeline (snd (redo h)) = timeline h.
Proof.
  unfold timeline. split.
  - destruct (nil_or_snoc (past (history h))) as [E|(l' & b & E')].
    + rewrite (undo_nil _ E). reflexivity.
    + rewrite (undo_snoc _ _ _ E'). cbn. rewrite E', <- app_assoc. reflexivity.
  - destruct (future (history h)) as [|a l] eqn:E.
    + rewrite (redo_nil _ E). cbn. rewrite E. reflexivity.
    + rewrite (redo_cons _ _ _ E). cbn. rewrite <- app_assoc. reflexivity.
Qed.

(** X8: between an [undo] and the timeout that clears the
    [isUndoRedoAction] ref, [setState] without [skipHistory] only replaces
    the present: nothing is pushed onto [past] and the redo entries stay.
    Once the timeout has fired the same call commits: it pushes the
    present and empties [future]. *)
Theorem edit_during_undo_window h d :
  past (history h) <> [] ->
  let h1 := snd (undo h) in
  history (setState d false h1) =
    {| past := past (history h1); present := d; future := future (history h1) |} /\
  future (history h1) <> [] /\
  let h2 := setState d false (timeoutFired h1) in
  future (history h2) = [] /\
  present (history h2) = d /\
  last (past (history h2)) = Some (present (history h1)).
Proof.
  intros Hne. destruct (snoc_cases _ Hne) as (l' & b & E).
  cbn zeta. rewrite (undo_snoc _ _ _ E). cbn [snd].
  split; [reflexivity|]. split; [discriminate|].
  unfold setState, timeoutFired. cbn.
  split; [reflexivity|]. split; [reflexivity|]. apply shiftIfOver_last.
Qed.

Lemma undo_iter_all (P : list D) : forall c F flag,
  history
    (Nat.iter (length P) (fun h => snd (undo h))
       {| history := {| past := P; present := c; future := F |};
          isUndoRedoAction := flag |}) =
  match P ++ [c] with
  | first :: rest => {| past := []; present := first; future := rest ++ F |}
  | [] => {| past := P; present := c; future := F |}
  end.
Proof.
  induction P as [|b P IH] using rev_ind; intros c F flag.
  - reflexivity.
  - rewrite length_app, Nat.add_1_r. rewrite Nat.iter_succ_r.
    erewrite undo_snoc by reflexivity. cbn [snd].
    rewrite IH. destruct (P ++ [b]) as [|first rest] eqn:E.
    + destruct P; discriminate.
    + cbn. rewrite <- app_assoc. reflexivity.
Qed.

Lemma commits_future ds : forall h,
  isUndoRedoAction h = false ->
  future (history h) = [] ->
  future (history (commits ds h)) = [].
Proof.
  induction ds as [|d ds IH]; intros h Hflag Hfut; [exact Hfut|].
  change (commits (d :: ds) h) with (commits ds (commit d h)).
  apply IH; rewrite commit_unfold by assumption; reflexivity.
Qed.

(** X9: after any run of commits from an initial document, undoing until
    nothing is left walks back through the last 51 documents seen and no
    further: [past] is empty and present followed by [future] is that
    window, so with at most 50 commits the present is the initial
    document again. *)
Theorem undo_all_after_commits d0 ds :
  let h := undoAll (commits ds (useHistory d0)) in
  past (history h) = [] /\
  present (history h) :: future (history h) =
    drop (length (d0 :: ds) - 51) (d0 :: ds).
Proof.
  cbn zeta. unfold undoAll.
  assert (H0 : length (past (history (useHistory d0))) <= 50) by (cbn; lia).
  destruct (commits_window ds (useHistory d0) eq_refl H0) as [W _].
  pose proof (commits_future ds (useHistory d0) eq_refl eq_refl) as HF.
  cbn [useHistory history past present app] in W.
  destruct (commits ds (useHistory d0)) as [[P c F] flag].
  cbn [history past present future] in *.
  subst F. rewrite undo_iter_all.
  rewrite W. destruct (drop _ _) as [|first rest] eqn:Ed.
  - destruct P; discriminate.
  - cbn. rewrite app_nil_r. split; reflexivity.
Qed.

End Facts.

Lemma redo_undo_round_trip_witness :
  let h := snd (undo (commit 2%nat (commit 1%nat (useHistory 0%nat)))) in
  exists next rest h1 h2,
    future (history h) = next :: rest /\
    redo h = (Some next, h1) /\
    history h1 =
      {| past := past (history h) ++ [present (history h)];
         present := next; future := rest |} /\
    undo h1 = (Some (present (history h)), h2) /\
    history h2 = history h.
Proof.
  apply (redo_undo_round_trip
           (snd (undo (commit 2%nat (commit 1%nat (useHistory 0%nat)))))).
  discriminate.
Defined.

Lemma edit_during_undo_window_witness :
  let h := commit 2%nat (commit 1%nat (useHistory 0%nat)) in
  let h1 := snd (undo h) in
  history (setState 9%nat false h1) =
    {| past := past (history h1); present := 9%nat; future := future (history h1) |} /\
  future (history h1) <> [] /\
  let h2 := setState 9%nat false (timeoutFired h1) in
  future (history h2) = [] /\
  present (history h2) = 9%nat /\
  last (past (history h2)) = Some (present (history h1)).
Proof.
  apply (edit_during_undo_window (commit 2%nat (commit 1%nat (useHistory 0%nat))) 9%nat).
  discriminate.
Defined.

End HistoryMore.

(** ** More on the layout *)

Module LayoutMore.
Import Diagram Layout LayoutInv LayoutAux LayoutExamples JsMapFacts LayoutSpec.
Local Open Scope Q_scope.

(** ** What the phases keep *)

Lemma settled_refl kv : settled kv kv.
Proof. repeat split; auto. Qed.

Lemma settled_trans a b c : settled a b -> settled b c -> settled a c.
Proof.
  intros (K1 & (I1 & N1 & C1 & P1) & L1) (K2 & (I2 & N2 & C2 & P2) & L2).
  split; [congruence|]. split; [repeat split; congruence|].
  destruct L2 as [L2|[Hp L2]].
  - rewrite L2. exact L1.
  - right. split; [congruence | exact L2].
Qed.

Lemma Forall2_refl_on {A} (R : A -> A -> Prop) (l : list A) :
  (forall a, R a a) -> Forall2 R l l.
Proof. intros HR. induction l; constructor; auto. Qed.

Lemma Forall2_trans_on {A} (R : A -> A -> Prop) :
  (forall a b c, R a b -> R b c -> R a c) ->
  forall l1 l2 l3, Forall2 R l1 l2 -> Forall2 R l2 l3 -> Forall2 R l1 l3.
Proof.
  intros HR l1 l2 l3 H12. revert l3.
  induction H12; intros l3 H23; inversion H23; subst; constructor; eauto.
Qed.

(** [update] changes at most the first entry under the key. *)
Lemma update_Forall2 {V} (R : string * V -> string * V -> Prop) f k (m : list (string * V)) :
  (forall kv, R kv kv) ->
  (forall v, JsMap.get k m = Some v -> R (k, v) (k, f v)) ->
  Forall2 R m (JsMap.update f k m).
Proof.
  intros Hrefl. induction m as [|[k' v'] m IH]; intros Hf; cbn; [constructor|].
  cbn in Hf. destruct (decide (k' = k)) as [->|Hne].
  - constructor; [apply Hf; reflexivity | apply Forall2_refl_on, Hrefl].
  - constructor; [apply Hrefl | apply IH, Hf].
Qed.

Lemma parentLevels_nonneg nodeMap current l0 ls :
  parentLevels nodeMap current = l0 :: ls ->
  parents current <> [] /\ (0 <= Math_max l0 ls)%Z.
Proof.
  unfold parentLevels. intros E. split.
  - intros Hp. rewrite Hp in E. discriminate.
  - assert (H0 : (0 <= l0)%Z).
    { assert (Hin : In l0 (l0 :: ls)) by (left; reflexivity).
      rewrite <- E in Hin. apply filter_In in Hin as [_ Hin]. lia. }
    unfold Math_max. clear E. revert l0 H0.
    induction ls as [|l ls IH]; intros l0 H0; cbn; [exact H0|].
    apply IH. lia.
Qed.

Lemma bfsLoop_settled fuel : forall nodeMap visited queue nodeMap',
  bfsLoop fuel nodeMap visited queue = Ok nodeMap' ->
  Forall2 settled nodeMap nodeMap'.
Proof.
  induction fuel as [|fuel IH]; intros nodeMap visited queue nodeMap' E.
  - destruct queue; cbn in E; [|discriminate].
    injection E as <-. apply Forall2_refl_on, settled_refl.
  - destruct queue as [|c queue]; cbn [bfsLoop] in E.
    { injection E as <-. apply Forall2_refl_on, settled_refl. }
    destruct (decide (c ∈ visited)); [eapply IH; exact E|].
    destruct (JsMap.get c nodeMap) as [current|] eqn:Hget; [|discriminate].
    destruct (parentLevels nodeMap current) as [|l0 ls] eqn:Hpl; [eapply IH; exact E|].
    eapply Forall2_trans_on; [exact settled_trans| |eapply IH; exact E].
    apply update_Forall2; [exact settled_refl|].
    intros v Hv. rewrite Hget in Hv. injection Hv as <-.
    destruct (parentLevels_nonneg _ _ _ _ Hpl) as [Hp Hm].
    split; [reflexivity|]. split; [repeat split|].
    right. split; [exact Hp|]. cbn. lia.
Qed.

Lemma linkEdges_linked edges : forall nodeMap,
  Forall2 linked nodeMap (linkEdges edges nodeMap).
Proof.
  assert (Hrefl : forall kv, linked kv kv) by (intros kv; repeat split).
  assert (Htrans : forall a b c, linked a b -> linked b c -> linked a c).
  { intros a b c (A1 & A2 & A3 & A4) (B1 & B2 & B3 & B4). repeat split; congruence. }
  unfold linkEdges. induction edges as [|e edges IH]; intros nodeMap; cbn.
  - apply Forall2_refl_on, Hrefl.
  - eapply Forall2_trans_on; [exact Htrans| |apply IH].
    unfold linkEdge.
    destruct (JsMap.get (from e) nodeMap) as [from_|]; [|apply Forall2_refl_on, Hrefl].
    destruct (JsMap.get (to e) nodeMap) as [to_|]; [|apply Forall2_refl_on, Hrefl].
    apply (Forall2_trans_on _ Htrans _
             (JsMap.update (push_child (layout_id to_)) (from e) nodeMap)).
    + apply update_Forall2; [exact Hrefl|]. intros v _. repeat split.
    + apply update_Forall2; [exact Hrefl|]. intros v _. repeat split.
Qed.

Lemma update_elem_key {V} f (k k' : string) (v' : V) m :
  (k', v') ∈ JsMap.update f k m ->
  (k', v') ∈ m \/ (k' = k /\ exists v0, (k, v0) ∈ m /\ v' = f v0).
Proof.
  induction m as [|[k0 v0] m IH]; cbn.
  - intros Hin. inversion Hin.
  - destruct (decide (k0 = k)) as [->|Hne].
    + intros Hin. inversion Hin; subst.
      * right. split; [reflexivity|]. exists v0. split; [left | reflexivity].
      * left. right. assumption.
    + intros Hin. inversion Hin; subst.
      * left. left.
      * destruct IH as [?|[-> (v1 & ? & ->)]]; auto.
        -- left. right. assumption.
        -- right. split; [reflexivity|]. exists v1. split; [right; assumption | reflexivity].
Qed.

(** A fresh map: one entry per id, at level 0 and without links. *)
Lemma buildNodeMap_fresh nodes :
  Forall (fun kv : string * LayoutNode =>
            level (snd kv) = 0%Z /\ parents (snd kv) = [] /\
            node (snd kv) ∈ nodes /\ id (node (snd kv)) = fst kv)
         (buildNodeMap nodes).
Proof.
  unfold buildNodeMap.
  assert (H : forall ns acc,
             (forall n, n ∈ ns -> n ∈ nodes) ->
             Forall (fun kv : string * LayoutNode =>
                       level (snd kv) = 0%Z /\ parents (snd kv) = [] /\
                       node (snd kv) ∈ nodes /\ id (node (snd kv)) = fst kv) acc ->
             Forall (fun kv : string * LayoutNode =>
                       level (snd kv) = 0%Z /\ parents (snd kv) = [] /\
                       node (snd kv) ∈ nodes /\ id (node (snd kv)) = fst kv)
               (fold_left
                  (fun nodeMap n =>
                     JsMap.set (id n)
                       {| layout_id := id n; node := n; level := 0;
                          children := []; parents := [] |} nodeMap)
                  ns acc)).
  { induction ns as [|n ns IH]; intros acc Hns Hacc; cbn [fold_left]; [exact Hacc|].
    apply IH; [intros m Hm; apply Hns; right; exact Hm|].
    rewrite Forall_forall in Hacc. apply Forall_forall. intros [k v] Hin.
    apply set_elem in Hin as [[= -> ->]|Hin]; [|exact (Hacc _ Hin)].
    cbn. repeat split. apply Hns. left. }
  apply H; [auto | constructor].
Qed.

Lemma buildNodeMap_known nodes n :
  n ∈ nodes -> known (buildNodeMap nodes) (id n).
Proof.
  unfold buildNodeMap, known.
  assert (Hset : forall (k k0 : string) (v : LayoutNode) m,
             is_Some (JsMap.get k0 m) \/ k0 = k -> is_Some (JsMap.get k0 (JsMap.set k v m))).
  { intros k k0 v m. induction m as [|[k' v'] m IH]; cbn.
    - intros [[? H]| ->]; [discriminate|]. rewrite decide_True by reflexivity. eauto.
    - destruct (decide (k' = k)) as [->|Hne]; cbn.
      + destruct (decide (k = k0)); [eauto|]. intros [H| ->]; [exact H | congruence].
      + destruct (decide (k' = k0)); [eauto | exact IH]. }
  assert (H : forall ns acc,
             n ∈ ns \/ is_Some (JsMap.get (id n) acc) ->
             is_Some
               (JsMap.get (id n)
                  (fold_left
                     (fun nodeMap n =>
                        JsMap.set (id n)
                          {| layout_id := id n; node := n; level := 0;
                             children := []; parents := [] |} nodeMap)
                     ns acc))).
  { induction ns as [|m ns IH]; intros acc [Hin|Hacc]; cbn [fold_left].
    - inversion Hin.
    - exact Hacc.
    - apply IH. inversion Hin; subst; [right; apply Hset; right; reflexivity | left; assumption].
    - apply IH. right. apply Hset. left. exact Hacc. }
  intros Hin. apply H. left. exact Hin.
Qed.

(** After linking, every parent of an entry is the source of an edge
    into it. *)
Lemma linkEdges_parents edges nodes :
  Forall (fun kv : string * LayoutNode =>
            forall p, p ∈ parents (snd kv) -> exists e, e ∈ edges /\ to e = fst kv)
         (linkEdges edges (buildNodeMap nodes)).
Proof.
  unfold linkEdges.
  assert (H : forall es acc,
             (forall e, e ∈ es -> e ∈ edges) ->
             Forall (fun kv : string * LayoutNode =>
                       forall p, p ∈ parents (snd kv) ->
                                 exists e, e ∈ edges /\ to e = fst kv) acc ->
             Forall (fun kv : string * LayoutNode =>
                       forall p, p ∈ parents (snd kv) ->
                                 exists e, e ∈ edges /\ to e = fst kv)
               (fold_left linkEdge es acc)).
  { induction es as [|e es IH]; intros acc Hes Hacc; cbn [fold_left]; [exact Hacc|].
    apply IH; [intros e' He'; apply Hes; right; exact He'|].
    unfold linkEdge.
    destruct (JsMap.get (from e) acc) as [from_|]; [|exact Hacc].
    destruct (JsMap.get (to e) acc) as [to_|]; [|exact Hacc].
    rewrite Forall_forall in Hacc. apply Forall_forall. intros [k v] Hin p Hp.
    apply update_elem_key in Hin as [Hin|[-> (v0 & Hin & ->)]].
    - apply update_elem_key in Hin as [Hin|[-> (v1 & Hin & ->)]].
      + exact (Hacc _ Hin p Hp).
      + exact (Hacc _ Hin p Hp).
    - exists e. split; [apply Hes; left | reflexivity]. }
  apply H; [auto|].
  pose proof (buildNodeMap_fresh nodes) as Hf.
  rewrite Forall_forall in Hf. apply Forall_forall.
  intros kv Hin p Hp. destruct (Hf _ Hin) as (_ & E & _). rewrite E in Hp. inversion Hp.
Qed.

Lemma Forall2_elem_r {A B} (R : A -> B -> Prop) l1 l2 b :
  Forall2 R l1 l2 -> b ∈ l2 -> exists a, a ∈ l1 /\ R a b.
Proof.
  induction 1 as [|a b' l1 l2 HR H IH]; intros Hin; [inversion Hin|].
  inversion Hin; subst.
  - exists a. split; [left | exact HR].
  - destruct (IH ltac:(assumption)) as (a' & Ha' & HR'). exists a'. split; [right|]; assumption.
Qed.

Lemma Forall2_elem_l {A B} (R : A -> B -> Prop) l1 l2 a :
  Forall2 R l1 l2 -> a ∈ l1 -> exists b, b ∈ l2 /\ R a b.
Proof.
  induction 1 as [|a' b l1 l2 HR H IH]; intros Hin; [inversion Hin|].
  inversion Hin; subst.
  - exists b. split; [left | exact HR].
  - destruct (IH ltac:(assumption)) as (b' & Hb' & HR'). exists b'. split; [right|]; assumption.
Qed.

Lemma nonempty_map_ok diagramData :
  nodes diagramData <> [] ->
  exists nodeMap',
    assignLevels (linkEdges (edges diagramData) (buildNodeMap (nodes diagramData))) =
      Ok nodeMap' /\
    Forall2 settled
      (linkEdges (edges diagramData) (buildNodeMap (nodes diagramData))) nodeMap'.
Proof.
  intros Hne. destruct (nodes diagramData) as [|n ns] eqn:En; [congruence|].
  destruct (buildNodeMap_inv (n :: ns)) as [Hk Hc].
  destruct (linkEdges_inv (edges diagramData) _ (conj Hk Hc)) as [Hk' Hc'].
  destruct (assignLevels_total (linkEdges (edges diagramData) (buildNodeMap (n :: ns))))
    as [nodeMap' E]; [assumption | assumption | |].
  { intros E. apply (f_equal length) in E. rewrite linkEdges_length in E.
    apply (buildNodeMap_not_nil n ns).
    destruct (buildNodeMap (n :: ns)); [reflexivity | discriminate]. }
  exists nodeMap'. split; [exact E|].
  unfold assignLevels in E. destruct (selectRoots _); [|discriminate].
  eapply bfsLoop_settled. exact E.
Qed.

(** X10: for a non-empty document the level assignment returns: every
    node gets a level, every level is at least 0, every key of the result
    is the id of a node, and a node that no edge points to is at level
    0. *)
Theorem layoutLevels_sources diagramData :
  nodes diagramData <> [] ->
  exists levels,
    layoutLevels diagramData = Ok levels /\
    (forall n, n ∈ nodes diagramData -> exists l, (id n, l) ∈ levels) /\
    (forall k l,
        (k, l) ∈ levels ->
        (0 <= l)%Z /\
        (exists n, n ∈ nodes diagramData /\ id n = k) /\
        ((forall e, e ∈ edges diagramData -> to e <> k) -> l = 0%Z)).
Proof.
  intros Hne. destruct (nonempty_map_ok _ Hne) as (nodeMap' & E & Hs).
  unfold layoutLevels. rewrite E. eexists. split; [reflexivity|].
  pose proof (buildNodeMap_fresh (nodes diagramData)) as Hfresh.
  pose proof (linkEdges_linked (edges diagramData) (buildNodeMap (nodes diagramData))) as Hl.
  pose proof (linkEdges_parents (edges diagramData) (nodes diagramData)) as Hp.
  rewrite Forall_forall in Hfresh, Hp. split.
  - intros n Hn. destruct (buildNodeMap_known _ _ Hn) as [v Hv].
    apply get_Some_elem in Hv.
    destruct (Forall2_elem_l _ _ _ _ Hl Hv) as ([k1 v1] & H1 & (K1 & _)).
    destruct (Forall2_elem_l _ _ _ _ Hs H1) as ([k2 v2] & H2 & (K2 & _)).
    cbn in K1, K2. subst k1 k2.
    exists (level v2). apply list_elem_of_fmap. exists (id n, v2). split; [reflexivity | exact H2].
  - intros k l Hin. apply list_elem_of_fmap in Hin as ([k2 v2] & [= -> ->] & H2).
    destruct (Forall2_elem_r _ _ _ _ Hs H2) as ([k1 v1] & H1 & (K2 & _ & Hlev)).
    destruct (Forall2_elem_r _ _ _ _ Hl H1) as ([k0 v0] & H0 & (K1 & _ & N1 & L1)).
    cbn in K1, K2, Hlev, N1, L1. subst k1 k0.
    destruct (Hfresh _ H0) as (L0 & _ & Hnode & Hid). cbn in L0, Hnode, Hid.
    assert (Hl1 : level v1 = 0%Z) by congruence.
    split; [destruct Hlev as [->|[_ ?]]; lia|].
    split; [exists (node v0); split; assumption|].
    intros Hno. destruct Hlev as [->|[Hpar _]]; [exact Hl1|].
    exfalso. destruct (parents v1) as [|p ps] eqn:Ep; [congruence|].
    destruct (Hp _ H1 p) as (e & He & Hto); [cbn; rewrite Ep; left|].
    exact (Hno e He Hto).
Qed.

Lemma layoutLevels_sources_witness :
  exists levels,
    layoutLevels LayoutSamples.fork = Ok levels /\
    (forall n, n ∈ nodes LayoutSamples.fork -> exists l, (id n, l) ∈ levels) /\
    (forall k l,
        (k, l) ∈ levels ->
        (0 <= l)%Z /\
        (exists n, n ∈ nodes LayoutSamples.fork /\ id n = k) /\
        ((forall e, e ∈ edges LayoutSamples.fork -> to e <> k) -> l = 0%Z)).
Proof.
  apply (layoutLevels_sources LayoutSamples.fork). discriminate.
Defined.

End LayoutMore.

Module LayoutRows.
Import Diagram Layout LayoutInv LayoutAux LayoutExamples JsMapFacts JsMapMore LayoutSpec LayoutMore.
Local Open Scope Q_scope.

Lemma atLevel_snoc lv vs v :
  atLevel lv (vs ++ [v]) =
  if decide (level v = lv) then atLevel lv vs ++ [v] else atLevel lv vs.
Proof.
  unfold atLevel. rewrite List.filter_app. cbn.
  destruct (decide (level v = lv)) as [E|E].
  - rewrite bool_decide_eq_true_2 by exact E. reflexivity.
  - rewrite bool_decide_eq_false_2 by exact E. apply app_nil_r.
Qed.

Lemma groupValues_spec (vs : list LayoutNode) :
  NoDup (map fst (fold_left groupStep vs [])) /\
  forall lv,
    JsMap.get lv (fold_left groupStep vs []) =
    match atLevel lv vs with
    | [] => None
    | _ :: _ => Some (atLevel lv vs)
    end.
Proof.
  induction vs as [|v vs [IHnd IHget]] using rev_ind.
  - split; [constructor | reflexivity].
  - rewrite fold_left_app. cbn [fold_left].
    set (rows := fold_left groupStep vs []) in *.
    unfold groupStep. split.
    + rewrite update_keys. unfold JsMap.has at 1.
      destruct (JsMap.get (level v) rows) eqn:E; cbn [negb]; [exact IHnd|].
      rewrite set_keys. unfold JsMap.has. rewrite E.
      apply NoDup_app. split; [exact IHnd|]. split; [|apply NoDup_singleton].
      intros k Hk Hk'. apply list_elem_of_singleton in Hk'. subst k.
      apply get_None_keys in E. contradiction.
    + intros lv. rewrite get_update, atLevel_snoc.
      destruct (decide (lv = level v)) as [->|Hne].
      * rewrite decide_True by reflexivity.
        unfold JsMap.has. specialize (IHget (level v)).
        destruct (JsMap.get (level v) rows) as [lns|] eqn:E; cbn [negb].
        -- rewrite E. cbn. destruct (atLevel (level v) vs) as [|a l]; [discriminate|].
           injection IHget as ->. reflexivity.
        -- rewrite get_set_eq. cbn.
           destruct (atLevel (level v) vs) as [|a l]; [reflexivity | discriminate].
      * rewrite decide_False by congruence.
        rewrite <- IHget. unfold JsMap.has.
        destruct (JsMap.get (level v) rows); cbn [negb]; [reflexivity|].
        apply get_set_ne. congruence.
Qed.

Lemma groupByLevel_rows nodeMap lv levelNodes :
  (lv, levelNodes) ∈ groupByLevel nodeMap ->
  levelNodes = atLevel lv (JsMap.values nodeMap) /\ levelNodes <> [].
Proof.
  intros Hin. destruct (groupValues_spec (JsMap.values nodeMap)) as [Hnd Hget].
  pose proof (elem_get_NoDup _ _ _ Hnd Hin) as E.
  change (fold_left groupStep (JsMap.values nodeMap) []) with (groupByLevel nodeMap) in Hget.
  rewrite Hget in E. destruct (atLevel lv (JsMap.values nodeMap)); [discriminate|].
  injection E as <-. split; [reflexivity | discriminate].
Qed.

Lemma placeNodes_frame yv levelNodes : forall s currentX (l : loc),
  l ∉ positionsOf levelNodes ->
  fst (fold_left (placeNode yv) levelNodes (s, currentX)) l = s l.
Proof.
  induction levelNodes as [|ln lns IH]; intros s currentX l Hni; [reflexivity|].
  cbn [fold_left placeNode]. rewrite IH.
  - apply write_xy_other. intros ->. apply Hni. left.
  - intros Hin. apply Hni. right. exact Hin.
Qed.

Lemma placeNodes_lookup yv pre ln post : forall s currentX,
  NoDup (positionsOf (pre ++ ln :: post)) ->
  fst (fold_left (placeNode yv) (pre ++ ln :: post) (s, currentX)) (position (node ln)) =
  {| x := advance pre currentX; y := yv |}.
Proof.
  induction pre as [|a pre IH]; intros s currentX Hnd.
  - cbn [app fold_left placeNode advance]. cbn in Hnd. apply NoDup_cons in Hnd as [Hni _].
    rewrite placeNodes_frame by exact Hni. apply write_xy_same.
  - cbn [app fold_left placeNode advance]. cbn in Hnd. apply NoDup_cons in Hnd as [_ Hnd].
    apply IH. exact Hnd.
Qed.

Lemma placeRow_frame s lv levelNodes (l : loc) :
  l ∉ positionsOf levelNodes -> placeRow s (lv, levelNodes) l = s l.
Proof. intros Hni. unfold placeRow. apply placeNodes_frame. exact Hni. Qed.

Lemma placeRow_lookup s lv pre ln post :
  NoDup (positionsOf (pre ++ ln :: post)) ->
  placeRow s (lv, pre ++ ln :: post) (position (node ln)) =
  {| x := advance pre (rowStart (pre ++ ln :: post));
     y := START_Y + inject_Z lv * LEVEL_SPACING |}.
Proof. intros Hnd. unfold placeRow. apply placeNodes_lookup. exact Hnd. Qed.

Lemma placeRows_frame rows : forall s (l : loc),
  Forall (fun row => l ∉ positionsOf (snd row)) rows ->
  placeRows rows s l = s l.
Proof.
  unfold placeRows. induction rows as [|[lv lns] rows IH]; intros s l Hall; [reflexivity|].
  cbn [fold_left]. inversion Hall; subst. rewrite IH by assumption.
  apply placeRow_frame. assumption.
Qed.

Lemma placeRows_lookup before lv pre ln post after s :
  NoDup (positionsOf (pre ++ ln :: post)) ->
  Forall (fun row => position (node ln) ∉ positionsOf (snd row)) after ->
  placeRows (before ++ (lv, pre ++ ln :: post) :: after) s (position (node ln)) =
  {| x := advance pre (rowStart (pre ++ ln :: post));
     y := START_Y + inject_Z lv * LEVEL_SPACING |}.
Proof.
  intros Hnd Hafter. unfold placeRows. rewrite fold_left_app. cbn [fold_left].
  change (fold_left placeRow after ?s0) with (placeRows after s0).
  rewrite placeRows_frame by exact Hafter.
  apply placeRow_lookup. exact Hnd.
Qed.

Lemma final_map_nodes diagramData nodeMap' v :
  Forall2 settled
    (linkEdges (edges diagramData) (buildNodeMap (nodes diagramData))) nodeMap' ->
  v ∈ JsMap.values nodeMap' ->
  node v ∈ nodes diagramData.
Proof.
  intros Hs Hv. unfold JsMap.values in Hv.
  apply list_elem_of_fmap in Hv as ([k2 v2] & -> & H2). cbn.
  destruct (Forall2_elem_r _ _ _ _ Hs H2) as ([k1 v1] & H1 & (_ & (_ & N2 & _) & _)).
  destruct (Forall2_elem_r _ _ _ _ (linkEdges_linked _ _) H1)
    as ([k0 v0] & H0 & (_ & _ & N1 & _)).
  pose proof (buildNodeMap_fresh (nodes diagramData)) as Hf.
  rewrite Forall_forall in Hf. destruct (Hf _ H0) as (_ & _ & Hn & _).
  cbn in *. congruence.
Qed.

Lemma atLevel_elem lv vs v : v ∈ atLevel lv vs -> v ∈ vs /\ level v = lv.
Proof.
  unfold atLevel. rewrite !list_elem_of_In, filter_In, bool_decide_eq_true. tauto.
Qed.


(** X11: [autoLayout] always returns, with the nodes and edges of its
    argument in the same order; a non-empty document loses its [paths]
    field and an empty one is returned as it is; and the only store cells
    written are position objects of the document's nodes. *)
Theorem autoLayout_frame s diagramData :
  exists s' out,
    autoLayout s diagramData = Ok (s', out) /\
    nodes out = nodes diagramData /\
    edges out = edges diagramData /\
    (nodes diagramData <> [] -> paths out = None) /\
    (nodes diagramData = [] -> out = diagramData) /\
    forall l : loc,
      (forall n, n ∈ nodes diagramData -> position n <> l) -> s' l = s l.
Proof.
  destruct (nodes diagramData) as [|n0 ns] eqn:En.
  - exists s, diagramData. unfold autoLayout. rewrite En. cbn.
    repeat split; try congruence.
  - assert (Hne : nodes diagramData <> []) by (rewrite En; discriminate).
    destruct (nonempty_map_ok _ Hne) as (nodeMap' & E & Hs).
    unfold autoLayout. rewrite En in *. cbn [length Nat.eqb]. rewrite E.
    eexists _, _. split; [reflexivity|]. cbn [nodes edges paths].
    split; [reflexivity|]. split; [reflexivity|]. split; [reflexivity|].
    split; [discriminate|].
    intros l Hl. apply placeRows_frame. apply Forall_forall. intros [lv lns] Hrow Hin.
    cbn in Hin. apply groupByLevel_rows in Hrow as [-> _].
    unfold positionsOf in Hin. apply list_elem_of_fmap in Hin as (v & -> & Hv).
    apply atLevel_elem in Hv as [Hv _].
    apply (Hl (node v)); [|reflexivity].
    rewrite <- En. apply (final_map_nodes diagramData nodeMap'); [|exact Hv].
    rewrite En. exact Hs.
Qed.

(** ** The positions of a well-formed document *)

Lemma buildNodeMap_NoDup nodes :
  NoDup (map id nodes) ->
  buildNodeMap nodes = map (fun n => (id n, freshNode n)) nodes.
Proof.
  unfold buildNodeMap.
  assert (H : forall ns acc,
             NoDup (map fst acc ++ map id ns) ->
             fold_left
               (fun nodeMap n =>
                  JsMap.set (id n)
                    {| layout_id := id n; node := n; level := 0;
                       children := []; parents := [] |} nodeMap)
               ns acc =
             acc ++ map (fun n => (id n, freshNode n)) ns).
  { induction ns as [|n ns IH]; intros acc Hnd; cbn [fold_left map].
    - rewrite app_nil_r. reflexivity.
    - cbn [map] in Hnd.
      assert (Hfresh : JsMap.get (id n) acc = None).
      { apply get_None_keys. intros Hin. apply NoDup_app in Hnd as (_ & Hd & _).
        apply (Hd _ Hin). left. }
      rewrite set_fresh by exact Hfresh. rewrite IH.
      + rewrite <- app_assoc. reflexivity.
      + rewrite map_app. cbn [map fst]. rewrite <- app_assoc. exact Hnd. }
  intros Hnd. apply (H nodes []). exact Hnd.
Qed.

Lemma Forall2_map_eq {A B C} (R : A -> B -> Prop) (f : A -> C) (g : B -> C) l1 l2 :
  Forall2 R l1 l2 -> (forall a b, R a b -> f a = g b) -> map f l1 = map g l2.
Proof.
  intros H Hfg. induction H; cbn; [reflexivity|]. f_equal; auto.
Qed.

Lemma zip_map_map {A B C} (f : A -> B) (g : A -> C) (l : list A) :
  zip (map f l) (map g l) = map (fun a => (f a, g a)) l.
Proof. induction l; cbn; congruence. Qed.

Lemma filter_map_comm {A B} (p : B -> bool) (h : A -> B) (l : list A) :
  List.filter p (map h l) = map h (List.filter (fun a => p (h a)) l).
Proof.
  induction l as [|a l IH]; cbn; [reflexivity|].
  destruct (p (h a)); cbn; congruence.
Qed.

Lemma fold_left_map_comm {A B C} (f : C -> B -> C) (h : A -> B) (l : list A) : forall c,
  fold_left f (map h l) c = fold_left (fun c a => f c (h a)) l c.
Proof. induction l as [|a l IH]; intros c; cbn; [reflexivity | apply IH]. Qed.

Lemma NoDup_map_inj {A B} (f : A -> B) (l : list A) a b :
  NoDup (map f l) -> a ∈ l -> b ∈ l -> f a = f b -> a = b.
Proof.
  induction l as [|c l IH]; intros Hnd Ha Hb E; [inversion Ha|].
  cbn in Hnd. apply NoDup_cons in Hnd as [Hni Hnd].
  inversion Ha; inversion Hb; subst; auto.
  - exfalso. apply Hni. rewrite E. apply list_elem_of_fmap. eauto.
  - exfalso. apply Hni. rewrite <- E. apply list_elem_of_fmap. eauto.
Qed.

Lemma levelRow_values (l : Z) (nodeMap : NodeMap) :
  levelRow l (map node (JsMap.values nodeMap))
    (map (fun kv => (fst kv, level (snd kv))) nodeMap) =
  map node (atLevel l (JsMap.values nodeMap)).
Proof.
  unfold levelRow, atLevel, JsMap.values.
  rewrite map_map, zip_map_map, filter_map_comm, map_map. cbn.
  rewrite filter_map_comm, map_map. reflexivity.
Qed.

Lemma rowStartNodes_map lns : rowStartNodes (map node lns) = rowStart lns.
Proof.
  unfold rowStartNodes, rowStart. rewrite fold_left_map_comm, length_map. reflexivity.
Qed.

Lemma advanceNodes_map pre cx : advanceNodes (map node pre) cx = advance pre cx.
Proof.
  unfold advanceNodes, advance.
  apply (fold_left_map_comm (fun cx m => cx + (width (dimensions m) + NODE_SPACING)) node).
Qed.

Lemma atLevel_positions_NoDup l vs :
  NoDup (positionsOf vs) -> NoDup (positionsOf (atLevel l vs)).
Proof.
  intros Hnd.
  assert (Hsub : sublist (positionsOf (atLevel l vs)) (positionsOf vs)).
  { unfold positionsOf, atLevel. clear Hnd.
    induction vs as [|a vs IH]; cbn; [constructor|].
    destruct (bool_decide _); cbn; [apply sublist_skip | apply sublist_cons]; apply IH. }
  eapply sublist_NoDup; eassumption.
Qed.

(** X12: for a non-empty document whose node ids are distinct and whose
    position objects are distinct, every node ends at
    [y = START_Y + level * LEVEL_SPACING], and at the [x] reached by
    starting at [START_X - totalRowWidth / 2] for its level's row and
    adding width plus [NODE_SPACING] for each node of the same level
    that comes before it in document order. *)
Theorem autoLayout_positions s diagramData :
  nodes diagramData <> [] ->
  NoDup (map id (nodes diagramData)) ->
  NoDup (map position (nodes diagramData)) ->
  exists s' levels,
    autoLayout s diagramData =
      Ok (s', {| nodes := nodes diagramData; edges := edges diagramData; paths := None |}) /\
    layoutLevels diagramData = Ok levels /\
    map fst levels = map id (nodes diagramData) /\
    forall i n l,
      nodes diagramData !! i = Some n ->
      snd <$> levels !! i = Some l ->
      s' (position n) =
        {| x := advanceNodes
                  (levelRow l (take i (nodes diagramData)) (take i levels))
                  (rowStartNodes (levelRow l (nodes diagramData) levels));
           y := START_Y + inject_Z l * LEVEL_SPACING |}.
Proof.
  intros Hne Hids Hpos.
  destruct (nonempty_map_ok _ Hne) as (nodeMap' & E & Hs).
  set (nm1 := linkEdges (edges diagramData) (buildNodeMap (nodes diagramData))) in *.
  assert (Hl : Forall2 linked
                 (map (fun n => (id n, freshNode n)) (nodes diagramData)) nm1).
  { rewrite <- (buildNodeMap_NoDup _ Hids). apply linkEdges_linked. }
  (* the final map lists the document's nodes in order *)
  assert (Hnodes : map node (JsMap.values nodeMap') = nodes diagramData).
  { unfold JsMap.values. rewrite map_map.
    rewrite <- (Forall2_map_eq settled (fun kv => node (snd kv)) (fun kv => node (snd kv))
                  nm1 nodeMap' Hs) by (intros a b (_ & (_ & N & _) & _); congruence).
    rewrite <- (Forall2_map_eq linked (fun kv => node (snd kv)) (fun kv => node (snd kv))
                  _ nm1 Hl) by (intros a b (_ & _ & N & _); congruence).
    rewrite map_map. cbn. apply map_id. }
  assert (Hkeys : map fst nodeMap' = map id (nodes diagramData)).
  { rewrite <- (Forall2_map_eq settled fst fst nm1 nodeMap' Hs)
      by (intros a b (K & _); congruence).
    rewrite <- (Forall2_map_eq linked fst fst _ nm1 Hl)
      by (intros a b (K & _); congruence).
    rewrite map_map. reflexivity. }
  set (vs := JsMap.values nodeMap') in *.
  assert (Hvpos : NoDup (positionsOf vs)).
  { unfold positionsOf. rewrite <- (map_map node position), Hnodes. exact Hpos. }
  assert (Hlen : (length (nodes diagramData) =? 0)%nat = false).
  { destruct (nodes diagramData); [congruence | reflexivity]. }
  subst nm1. unfold autoLayout, layoutLevels. cbv zeta. rewrite Hlen, E.
  eexists _, _. split; [reflexivity|]. split; [reflexivity|].
  split; [rewrite map_map; exact Hkeys|].
  intros i n l Hn Hlv.
  (* the layout node of [n] *)
  rewrite list_lookup_fmap in Hlv.
  assert (Hv : exists v, vs !! i = Some v /\ node v = n /\ level v = l).
  { rewrite <- Hnodes, list_lookup_fmap in Hn.
    destruct (vs !! i) as [v|] eqn:Ev; [|discriminate]. injection Hn as Hn.
    exists v. split; [reflexivity|]. split; [exact Hn|].
    unfold vs, JsMap.values in Ev. rewrite list_lookup_fmap in Ev.
    match type of Ev with
    | snd <$> ?o = _ => destruct o as [kv|]; simplify_eq/=
    end. reflexivity. }
  destruct Hv as (v & Ev & <- & <-).
  (* its row *)
  rewrite <- Hnodes.
  pose proof (levelRow_values (level v) nodeMap') as HLR. fold vs in HLR. rewrite HLR.
  assert (Htake : levelRow (level v) (take i (map node vs))
                    (take i (map (fun kv => (fst kv, level (snd kv))) nodeMap')) =
                  map node (atLevel (level v) (take i vs))).
  { rewrite <- !fmap_take. unfold vs, JsMap.values. rewrite <- fmap_take.
    apply (levelRow_values (level v) (take i nodeMap')). }
  rewrite Htake, rowStartNodes_map, advanceNodes_map.
  pose proof (take_drop_middle _ _ _ Ev) as Hsplit.
  assert (Hrow : atLevel (level v) vs =
                 atLevel (level v) (take i vs) ++ v :: atLevel (level v) (drop (S i) vs)).
  { rewrite <- Hsplit at 1. unfold atLevel. rewrite List.filter_app. cbn.
    rewrite bool_decide_eq_true_2 by reflexivity. reflexivity. }
  destruct (groupValues_spec vs) as [Hnd Hget].
  change (fold_left groupStep vs []) with (groupByLevel nodeMap') in Hnd, Hget.
  specialize (Hget (level v)). rewrite Hrow in Hget at 1.
  destruct (atLevel (level v) (take i vs) ++ v :: atLevel (level v) (drop (S i) vs))
    eqn:Hcons in Hget at 1; [destruct (atLevel (level v) (take i vs)); discriminate|].
  clear Hcons. apply get_Some_elem in Hget.
  apply list_elem_of_split in Hget as (before & after & Hrows).
  rewrite Hrows, Hrow.
  apply placeRows_lookup.
  - rewrite <- Hrow. apply atLevel_positions_NoDup. exact Hvpos.
  - apply Forall_forall. intros [lv' lns'] Hafter Hin. cbn in Hin.
    assert (Hin' : (lv', lns') ∈ groupByLevel nodeMap').
    { rewrite Hrows. apply elem_of_app. right. right. exact Hafter. }
    apply groupByLevel_rows in Hin' as [-> _].
    unfold positionsOf in Hin. apply list_elem_of_fmap in Hin as (v' & Epos & Hv').
    apply atLevel_elem in Hv' as [Hv' Hlv'].
    assert (v = v').
    { apply (NoDup_map_inj (fun ln => position (node ln)) vs); try assumption.
      apply list_elem_of_lookup. eauto. }
    subst v'.
    rewrite Hrows, map_app in Hnd. cbn in Hnd.
    apply NoDup_app in Hnd as (_ & _ & Hnd). apply NoDup_cons in Hnd as [Hni _].
    apply Hni. apply list_elem_of_fmap. exists (lv', atLevel lv' vs).
    split; [cbn; congruence | exact Hafter].
Qed.

Lemma autoLayout_positions_witness :
  exists s' levels,
    autoLayout LayoutSamples.origin LayoutSamples.fork =
      Ok (s', {| nodes := nodes LayoutSamples.fork; edges := edges LayoutSamples.fork;
                 paths := None |}) /\
    layoutLevels LayoutSamples.fork = Ok levels /\
    map fst levels = map id (nodes LayoutSamples.fork) /\
    forall i n l,
      nodes LayoutSamples.fork !! i = Some n ->
      snd <$> levels !! i = Some l ->
      s' (position n) =
        {| x := advanceNodes
                  (levelRow l (take i (nodes LayoutSamples.fork)) (take i levels))
                  (rowStartNodes (levelRow l (nodes LayoutSamples.fork) levels));
           y := START_Y + inject_Z l * LEVEL_SPACING |}.
Proof.
  apply (autoLayout_positions LayoutSamples.origin LayoutSamples.fork).
  - discriminate.
  - apply (bool_decide_unpack _). vm_compute. exact I.
  - apply (bool_decide_unpack _). vm_compute. exact I.
Defined.

End LayoutRows.

(** ** More on the canvas gestures *)

Module CanvasMore.
Import Diagram Boundaries BoundariesSpec BoundariesMore Canvas CanvasExamples CanvasSamples.
Import CanvasSpec JsMapFacts JsMapMore.
Local Open Scope Q_scope.
Local Open Scope string_scope.
Local Open Scope list_scope.

(** X13: whatever the wheel delta and the state, the scale after
    [handleWheel] is between 0.1 and 3. *)
Theorem handleWheel_scale_bounds deltaY st :
  (1 # 10) <= scale (handleWheel deltaY st) /\ scale (handleWheel deltaY st) <= 3.
Proof.
  unfold handleWheel. cbn [scale setScale].
  destruct (Qlt_le_dec 0 deltaY);
  match goal with
  | |- context [Qmin ?a ?b] => destruct (Qmin_cases a b) as [[? ->]|[? ->]]
  end;
  match goal with
  | |- context [Qmax ?a ?b] => destruct (Qmax_cases a b) as [[? ->]|[? ->]]
  end; lra.
Qed.

Lemma find_rev_spec {A} (f : A -> bool) (l : list A) :
  match List.find f (rev l) with
  | Some a =>
      exists pre post, l = pre ++ a :: post /\ f a = true /\ Forall (fun b => f b = false) post
  | None => Forall (fun b => f b = false) l
  end.
Proof.
  induction l as [|b l IH] using rev_ind.
  - constructor.
  - rewrite rev_app_distr. cbn. destruct (f b) eqn:E.
    + exists l, []. auto.
    + destruct (List.find f (rev l)) as [a|].
      * destruct IH as (pre & post & -> & Ha & Hpost).
        exists pre, (post ++ [b]). rewrite <- app_assoc. cbn.
        split; [reflexivity|]. split; [exact Ha|].
        apply Forall_app. auto.
      * apply Forall_app. auto.
Qed.

(** X14: [findNodeAtPosition] returns the last node of the document that
    contains the point, the one drawn on top: no node after it contains
    the point; and it returns nothing only when no node contains it. *)
Theorem findNodeAtPosition_topmost p px py :
  match findNodeAtPosition p px py with
  | Some n =>
      exists below above,
        nodes (diagramData p) = below ++ n :: above /\
        containsPoint px py n = true /\
        Forall (fun m => containsPoint px py m = false) above
  | None => Forall (fun m => containsPoint px py m = false) (nodes (diagramData p))
  end.
Proof. unfold findNodeAtPosition. apply find_rev_spec. Qed.

Lemma Qle_bool_comp_l a b c : a == b -> Qle_bool a c = Qle_bool b c.
Proof.
  intros E. destruct (Qle_bool b c) eqn:H.
  - apply Qle_bool_iff. apply Qle_bool_iff in H. rewrite E. exact H.
  - apply not_true_is_false. intros H'. apply Qle_bool_iff in H'.
    rewrite E in H'. apply Qle_bool_iff in H'. congruence.
Qed.

Lemma Qle_bool_comp_r a b c : a == b -> Qle_bool c a = Qle_bool c b.
Proof.
  intros E. destruct (Qle_bool c b) eqn:H.
  - apply Qle_bool_iff. apply Qle_bool_iff in H. rewrite E. exact H.
  - apply not_true_is_false. intros H'. apply Qle_bool_iff in H'.
    rewrite E in H'. apply Qle_bool_iff in H'. congruence.
Qed.

(** X15: [getNodesInBox] does not depend on the direction the box was
    dragged in, and returns the ids of exactly the nodes that lie wholly
    inside the box, borders included. *)
Theorem getNodesInBox_spec p a b :
  getNodesInBox p (a, b) = getNodesInBox p (b, a) /\
  forall i,
    i ∈ getNodesInBox p (a, b) <->
    exists n,
      n ∈ nodes (diagramData p) /\ id n = i /\
      Qmin (x a) (x b) <= x (position n) /\
      x (position n) + width (dimensions n) <= Qmax (x a) (x b) /\
      Qmin (y a) (y b) <= y (position n) /\
      y (position n) + height (dimensions n) <= Qmax (y a) (y b).
Proof.
  split.
  - unfold getNodesInBox. f_equal. apply filter_ext. intros n.
    rewrite (Qle_bool_comp_l _ _ _ (Q.min_comm (x a) (x b))).
    rewrite (Qle_bool_comp_r _ _ _ (Q.max_comm (x a) (x b))).
    rewrite (Qle_bool_comp_l _ _ _ (Q.min_comm (y a) (y b))).
    rewrite (Qle_bool_comp_r _ _ _ (Q.max_comm (y a) (y b))).
    reflexivity.
  - intros i. unfold getNodesInBox. rewrite list_elem_of_fmap. split.
    + intros (n & -> & Hin). apply elem_of_filter_bool in Hin as [Hin Hf].
      rewrite !andb_true_iff, !Qle_bool_iff in Hf.
      exists n. tauto.
    + intros (n & Hin & <- & H1 & H2 & H3 & H4).
      exists n. split; [reflexivity|]. apply elem_of_filter_bool. split; [exact Hin|].
      rewrite !andb_true_iff, !Qle_bool_iff. tauto.
Qed.

(** X16: releasing the mouse after drawing with a shape tool: a box of
    width or height at most 20 adds nothing and calls nothing; a larger
    one appends one node of the tool's type with id [node-<now>], the
    capitalised tool name as text and the size of the box, then switches
    to the select tool; and if the box fits on the canvas the node's
    position is within bounds. *)
Theorem shape_gesture canvasPos now p st nodeType :
  asNodeType (selectedTool p) = Some nodeType ->
  isDrawing st = true ->
  isDragging st = false ->
  let w := Qabs (x canvasPos - x (drawStart st)) in
  let h := Qabs (y canvasPos - y (drawStart st)) in
  let dims := {| width := w; height := h |} in
  let corner :=
    {| x := Qmin (x (drawStart st)) (x canvasPos);
       y := Qmin (y (drawStart st)) (y canvasPos) |} in
  let newNode :=
    {| id := String.append "node-" now; type := nodeType;
       text := capitalize (toolName (selectedTool p));
       position := constrainAndSnapPosition corner dims;
       dimensions := dims; imageUrl := None |} in
  (w <= 20 \/ h <= 20 -> snd (handleMouseUp canvasPos now p st) = []) /\
  (20 < w -> 20 < h ->
   snd (handleMouseUp canvasPos now p st) =
     [setDiagramData
        {| nodes := nodes (diagramData p) ++ [newNode];
           edges := edges (diagramData p);
           paths := paths (diagramData p) |};
      onToolChange tool_select] /\
   (w <= maxX - minX -> h <= maxY - minY ->
    isWithinBounds (position newNode) (dimensions newNode) = true)).
Proof.
  intros Htool Hdraw Hdrag. cbn zeta.
  unfold handleMouseUp, commitDrag, finishGesture.
  rewrite Hdraw, Hdrag, Htool. cbn [andb].
  assert (Hpen : bool_decide (selectedTool p = tool_pen) = false).
  { apply bool_decide_eq_false. intros E. rewrite E in Htool. discriminate. }
  rewrite Hpen. cbn [andb].
  split.
  - intros Hsmall.
    assert (Hc : negb (Qle_bool (Qabs (x canvasPos - x (drawStart st))) 20) &&
                 negb (Qle_bool (Qabs (y canvasPos - y (drawStart st))) 20) = false).
    { apply andb_false_iff. destruct Hsmall as [H|H]; [left|right];
        apply negb_false_iff, Qle_bool_iff; exact H. }
    rewrite Hc. reflexivity.
  - intros Hw Hh.
    assert (Hc : negb (Qle_bool (Qabs (x canvasPos - x (drawStart st))) 20) &&
                 negb (Qle_bool (Qabs (y canvasPos - y (drawStart st))) 20) = true).
    { apply andb_true_iff. split; apply negb_true_iff, not_true_is_false;
        intros H; apply Qle_bool_iff in H; lra. }
    rewrite Hc. split; [reflexivity|].
    intros Hfw Hfh. cbn [position dimensions]. unfold constrainAndSnapPosition.
    apply constrainPosition_in_bounds; assumption.
Qed.

(** X17: every preview position written while dragging belongs to a
    selected node of the document with a drag offset, is the snapped and
    constrained mouse position minus that offset, and is within bounds
    when the node fits on the canvas. *)
Theorem drag_preview_in_bounds p st canvasPos i pos :
  JsMap.get i (previewPositions p st canvasPos) = Some pos ->
  exists n dragOffset,
    n ∈ nodes (diagramData p) /\ id n = i /\ i ∈ selectedNodeIds p /\
    JsMap.get i (dragOffsets st) = Some dragOffset /\
    pos =
      constrainAndSnapPosition
        {| x := x canvasPos - x dragOffset; y := y canvasPos - y dragOffset |}
        (dimensions n) /\
    (width (dimensions n) <= maxX - minX ->
     height (dimensions n) <= maxY - minY ->
     isWithinBounds pos (dimensions n) = true).
Proof.
  unfold previewPositions.
  assert (H : forall ns acc,
    (forall pos, JsMap.get i acc = Some pos ->
       exists n dragOffset,
         n ∈ nodes (diagramData p) /\ id n = i /\ i ∈ selectedNodeIds p /\
         JsMap.get i (dragOffsets st) = Some dragOffset /\
         pos =
           constrainAndSnapPosition
             {| x := x canvasPos - x dragOffset; y := y canvasPos - y dragOffset |}
             (dimensions n)) ->
    (forall n, n ∈ ns -> n ∈ nodes (diagramData p)) ->
    forall pos,
      JsMap.get i
        (fold_left
           (fun newTempPositions n =>
              if includes (selectedNodeIds p) (id n) then
                match JsMap.get (id n) (dragOffsets st) with
                | Some dragOffset =>
                    JsMap.set (id n)
                      (constrainAndSnapPosition
                         {| x := x canvasPos - x dragOffset;
                            y := y canvasPos - y dragOffset |}
                         (dimensions n))
                      newTempPositions
                | None => newTempPositions
                end
              else newTempPositions)
           ns acc) = Some pos ->
      exists n dragOffset,
        n ∈ nodes (diagramData p) /\ id n = i /\ i ∈ selectedNodeIds p /\
        JsMap.get i (dragOffsets st) = Some dragOffset /\
        pos =
          constrainAndSnapPosition
            {| x := x canvasPos - x dragOffset; y := y canvasPos - y dragOffset |}
            (dimensions n)).
  { induction ns as [|n ns IH]; intros acc Hacc Hns pos0; cbn [fold_left]; [apply Hacc|].
    apply IH; [|intros m Hm; apply Hns; right; exact Hm].
    intros pos1. destruct (includes (selectedNodeIds p) (id n)) eqn:Hinc; [|apply Hacc].
    destruct (JsMap.get (id n) (dragOffsets st)) as [dragOffset|] eqn:Hoff; [|apply Hacc].
    destruct (decide (id n = i)) as [Hid|Hid].
    - rewrite Hid, get_set_eq. intros [= <-].
      exists n, dragOffset. rewrite <- Hid.
      split; [apply Hns; left|]. split; [reflexivity|].
      split; [apply includes_true; exact Hinc|]. split; [exact Hoff | reflexivity].
    - rewrite get_set_ne by assumption. apply Hacc. }
  intros Hget.
  destruct (H (nodes (diagramData p)) []) with (pos := pos)
    as (n & dragOffset & Hin & Hid & Hsel & Hoff & ->);
    [intros pos0; discriminate | auto | exact Hget |].
  exists n, dragOffset. repeat split; try assumption.
  intros Hw Hh. unfold constrainAndSnapPosition.
  apply constrainPosition_in_bounds; assumption.
Qed.

(** X18: releasing the mouse after a drag with preview positions makes
    one [setDiagramData] call: edges and paths are kept, the nodes keep
    their number, order and fields, and each node gets its preview
    position if it has one and keeps its own otherwise; the preview is
    then cleared. *)
Theorem drag_commit canvasPos now p st :
  isDragging st = true ->
  tempNodePositions st <> [] ->
  isDrawing st = false ->
  isSelecting st = false ->
  exists d',
    snd (handleMouseUp canvasPos now p st) = [setDiagramData d'] /\
    edges d' = edges (diagramData p) /\
    paths d' = paths (diagramData p) /\
    length (nodes d') = length (nodes (diagramData p)) /\
    (forall k n,
        nodes (diagramData p) !! k = Some n ->
        exists n',
          nodes d' !! k = Some n' /\
          id n' = id n /\ type n' = type n /\ text n' = text n /\
          dimensions n' = dimensions n /\ imageUrl n' = imageUrl n /\
          position n' = default (position n) (JsMap.get (id n) (tempNodePositions st))) /\
    tempNodePositions (fst (handleMouseUp canvasPos now p st)) = [] /\
    isDragging (fst (handleMouseUp canvasPos now p st)) = false.
Proof.
  intros Hdrag Htemp Hdraw Hsel.
  unfold handleMouseUp, commitDrag, finishGesture.
  rewrite Hdrag, Hdraw, Hsel.
  destruct (tempNodePositions st) as [|kv temp] eqn:E; [congruence|].
  cbn [length Nat.ltb Nat.leb andb snd fst app].
  eexists. split; [reflexivity|].
  cbn [withNodes nodes edges paths].
  split; [reflexivity|]. split; [reflexivity|].
  split; [apply length_map|]. split; [|split; reflexivity].
  intros k n Hk. eexists. rewrite list_lookup_fmap, Hk. cbn [fmap option_fmap option_map].
  split; [reflexivity|].
  destruct (JsMap.get (id n) (kv :: temp)); cbn; repeat split; reflexivity.
Qed.

Lemma filter_toggle (sel : list string) (i : string) :
  i ∉ sel -> List.filter (fun j => negb (String.eqb j i)) (sel ++ [i]) = sel.
Proof.
  induction sel as [|j sel IH]; intros Hni; cbn.
  - rewrite String.eqb_refl. reflexivity.
  - destruct (String.eqb j i) eqn:E.
    + apply String.eqb_eq in E. subst j. exfalso. apply Hni. left.
    + cbn. f_equal. apply IH. intros Hin. apply Hni. right. exact Hin.
Qed.

(** X19: with the select tool, a Ctrl- or Meta-click on an unselected
    node appends its id to the selection, and the same click on the
    resulting selection gives back the original one; neither click starts
    a drag or changes the component state. *)
Theorem ctrl_click_toggles canvasRect e p st clicked :
  button e = 0%Z ->
  isSpacePressed st = false ->
  selectedTool p = tool_select ->
  (ctrlKey e || metaKey e) = true ->
  (let canvasPos := screenToCanvas canvasRect st (clientX e) (clientY e) in
   findNodeAtPosition p (x canvasPos) (y canvasPos) = Some clicked) ->
  id clicked ∉ selectedNodeIds p ->
  let added := selectedNodeIds p ++ [id clicked] in
  let p' :=
    {| diagramData := diagramData p; selectedNodeIds := added;
       selectedTool := selectedTool p; penColor := penColor p |} in
  handleMouseDown canvasRect e p st = (st, [onNodeSelect added]) /\
  handleMouseDown canvasRect e p' st = (st, [onNodeSelect (selectedNodeIds p)]).
Proof.
  intros Hb Hsp Htool Hctrl Hfind Hni. cbn zeta in *.
  unfold handleMouseDown. rewrite Hb, Hsp. cbn [Z.eqb negb].
  cbn [selectedTool selectedNodeIds diagramData]. rewrite Htool, Hctrl.
  assert (Hfind' : findNodeAtPosition
                     {| diagramData := diagramData p;
                        selectedNodeIds := selectedNodeIds p ++ [id clicked];
                        selectedTool := tool_select; penColor := penColor p |}
                     (x (screenToCanvas canvasRect st (clientX e) (clientY e)))
                     (y (screenToCanvas canvasRect st (clientX e) (clientY e))) =
                   Some clicked) by exact Hfind.
  rewrite Hfind, Hfind'.
  assert (H1 : includes (selectedNodeIds p) (id clicked) = false)
    by (apply includes_false; exact Hni).
  assert (H2 : includes (selectedNodeIds p ++ [id clicked]) (id clicked) = true)
    by (apply includes_true; apply elem_of_app; right; left).
  rewrite H1, H2, filter_toggle by assumption. split; reflexivity.
Qed.

(** X20: while panning, the canvas point under the pointer stays the
    one that was under it at the previous mouse event: the offset moves
    by the pointer's displacement and the scale is unchanged. *)
Theorem pan_keeps_point canvasRect e p st :
  isPanning st = true ->
  let st' := handleMouseMove canvasRect e p st in
  let grabbed := screenToCanvas canvasRect st (x (lastMousePos st)) (y (lastMousePos st)) in
  let under := screenToCanvas canvasRect st' (clientX e) (clientY e) in
  x under == x grabbed /\ y under == y grabbed /\
  lastMousePos st' = {| x := clientX e; y := clientY e |} /\
  scale st' = scale st.
Proof.
  intros Hpan. cbn zeta. unfold handleMouseMove. rewrite Hpan.
  unfold screenToCanvas. destruct canvasRect as [[left_ top_]|]; cbn.
  - repeat split; apply Qmult_comp; try reflexivity; ring.
  - repeat split; reflexivity.
Qed.

(** X21: releasing the mouse after a rubber-band selection selects the
    nodes inside the box, and when there is none it makes no call at all,
    so the selection is left as it was; the box is cleared either
    way. *)
Theorem rubber_band_select canvasPos now p st box :
  isSelecting st = true ->
  selectionBox st = Some box ->
  isDrawing st = false ->
  isDragging st = false ->
  snd (handleMouseUp canvasPos now p st) =
    match getNodesInBox p box with
    | [] => []
    | _ :: _ => [onNodeSelect (getNodesInBox p box)]
    end /\
  selectionBox (fst (handleMouseUp canvasPos now p st)) = None /\
  isSelecting (fst (handleMouseUp canvasPos now p st)) = false.
Proof.
  intros Hsel Hbox Hdraw Hdrag. unfold handleMouseUp, commitDrag, finishGesture.
  rewrite Hsel, Hbox, Hdraw, Hdrag. cbn [andb fst snd app].
  destruct (getNodesInBox p box); repeat split.
Qed.

Lemma shape_gesture_witness :
  let p := withTool tool_rectangle in
  let st := drawingFrom100 in
  let canvasPos := pt 300 220 in
  let now := "1700000000000" in
  let w := Qabs (x canvasPos - x (drawStart st)) in
  let h := Qabs (y canvasPos - y (drawStart st)) in
  let dims := {| width := w; height := h |} in
  let corner :=
    {| x := Qmin (x (drawStart st)) (x canvasPos);
       y := Qmin (y (drawStart st)) (y canvasPos) |} in
  let newNode :=
    {| id := String.append "node-" now; type := rectangle;
       text := capitalize (toolName (selectedTool p));
       position := constrainAndSnapPosition corner dims;
       dimensions := dims; imageUrl := None |} in
  (w <= 20 \/ h <= 20 -> snd (handleMouseUp canvasPos now p st) = []) /\
  (20 < w -> 20 < h ->
   snd (handleMouseUp canvasPos now p st) =
     [setDiagramData
        {| nodes := nodes (diagramData p) ++ [newNode];
           edges := edges (diagramData p);
           paths := paths (diagramData p) |};
      onToolChange tool_select] /\
   (w <= maxX - minX -> h <= maxY - minY ->
    isWithinBounds (position newNode) (dimensions newNode) = true)).
Proof.
  apply (shape_gesture (pt 300 220) "1700000000000" (withTool tool_rectangle)
           drawingFrom100 rectangle); reflexivity.
Defined.

Lemma drag_preview_in_bounds_witness :
  exists n dragOffset,
    n ∈ nodes (diagramData selecting_b) /\ id n = "b" /\
    "b" ∈ selectedNodeIds selecting_b /\
    JsMap.get "b" (dragOffsets dragging_b) = Some dragOffset /\
    constrainAndSnapPosition (pt 490 290) {| width := 180; height := 80 |} =
      constrainAndSnapPosition
        {| x := x (pt 500 300) - x dragOffset; y := y (pt 500 300) - y dragOffset |}
        (dimensions n) /\
    (width (dimensions n) <= maxX - minX ->
     height (dimensions n) <= maxY - minY ->
     isWithinBounds
       (constrainAndSnapPosition (pt 490 290) {| width := 180; height := 80 |})
       (dimensions n) = true).
Proof.
  apply (drag_preview_in_bounds selecting_b dragging_b (pt 500 300) "b"
           (constrainAndSnapPosition (pt 490 290) {| width := 180; height := 80 |})).
  vm_compute. reflexivity.
Defined.

Lemma drag_commit_witness :
  exists d',
    snd (handleMouseUp (pt 500 300) "0" selecting_b dragged_b) = [setDiagramData d'] /\
    edges d' = edges (diagramData selecting_b) /\
    paths d' = paths (diagramData selecting_b) /\
    length (nodes d') = length (nodes (diagramData selecting_b)) /\
    (forall k n,
        nodes (diagramData selecting_b) !! k = Some n ->
        exists n',
          nodes d' !! k = Some n' /\
          id n' = id n /\ type n' = type n /\ text n' = text n /\
          dimensions n' = dimensions n /\ imageUrl n' = imageUrl n /\
          position n' =
            default (position n) (JsMap.get (id n) (tempNodePositions dragged_b))) /\
    tempNodePositions (fst (handleMouseUp (pt 500 300) "0" selecting_b dragged_b)) = [] /\
    isDragging (fst (handleMouseUp (pt 500 300) "0" selecting_b dragged_b)) = false.
Proof.
  apply (drag_commit (pt 500 300) "0" selecting_b dragged_b);
    first [reflexivity | discriminate].
Defined.

Lemma ctrl_click_toggles_witness :
  let p := withTool tool_select in
  let added := selectedNodeIds p ++ ["b"] in
  let p' :=
    {| diagramData := diagramData p; selectedNodeIds := added;
       selectedTool := selectedTool p; penColor := penColor p |} in
  handleMouseDown (Some (0, 0)) (click 450 150 true) p initialState =
    (initialState, [onNodeSelect added]) /\
  handleMouseDown (Some (0, 0)) (click 450 150 true) p' initialState =
    (initialState, [onNodeSelect (selectedNodeIds p)]).
Proof.
  apply (ctrl_click_toggles (Some (0, 0)) (click 450 150 true) (withTool tool_select)
           initialState (box "b" 400 100));
    first [reflexivity | intros H; inversion H].
Defined.

Lemma pan_keeps_point_witness :
  let st' := handleMouseMove (Some (0, 0)) (click 260 240 false) (withTool tool_select) panning in
  let grabbed :=
    screenToCanvas (Some (0, 0)) panning (x (lastMousePos panning)) (y (lastMousePos panning)) in
  let under := screenToCanvas (Some (0, 0)) st' 260 240 in
  x under == x grabbed /\ y under == y grabbed /\
  lastMousePos st' = {| x := 260; y := 240 |} /\
  scale st' = scale panning.
Proof.
  apply (pan_keeps_point (Some (0, 0)) (click 260 240 false) (withTool tool_select) panning).
  reflexivity.
Defined.

Lemma rubber_band_select_witness :
  snd (handleMouseUp (pt 650 250) "0" (withTool tool_select) selecting) =
    match getNodesInBox (withTool tool_select) (pt 50 50, pt 650 250) with
    | [] => []
    | _ :: _ => [onNodeSelect (getNodesInBox (withTool tool_select) (pt 50 50, pt 650 250))]
    end /\
  selectionBox (fst (handleMouseUp (pt 650 250) "0" (withTool tool_select) selecting)) = None /\
  isSelecting (fst (handleMouseUp (pt 650 250) "0" (withTool tool_select) selecting)) = false.
Proof.
  apply (rubber_band_select (pt 650 250) "0" (withTool tool_select) selecting
           (pt 50 50, pt 650 250)); reflexivity.
Defined.

End CanvasMore.

(** ** More on the editor *)

Module DiagramEditorMore.
Import History HistorySpec HistoryMore DiagramEditor EditorAux.
Local Open Scope string_scope.
Local Open Scope list_scope.

Section Facts.
Context {D : Type} (asDiagramData : json -> D) (nullPropertyMessage : string).
Implicit Types (st : State D) (d : D) (ds : list D).

Lemma edits_snoc ds d st : edits (ds ++ [d]) st = updateDiagramData d (edits ds st).
Proof. unfold edits. rewrite fold_left_app. reflexivity. Qed.

Lemma edits_saves ds : forall st, saves (edits ds st) = saves st.
Proof.
  induction ds as [|d ds IH]; intros st; [reflexivity|].
  change (edits (d :: ds) st) with (edits ds (updateDiagramData d st)).
  rewrite IH. reflexivity.
Qed.

(** X22: a run of edits through [updateDiagramData] starts no save by
    itself; when the timer fires, exactly one save starts, with the
    document of the last edit; and a second firing does nothing, the
    timer being the one the last edit set. *)
Theorem debounce_coalesces ds d st :
  let st' := edits (ds ++ [d]) st in
  saves st' = saves st /\
  saves (saveTimeoutFired true st') = saves st ++ [d] /\
  saveTimeoutFired true (saveTimeoutFired true st') = saveTimeoutFired true st'.
Proof.
  cbn zeta. rewrite edits_snoc.
  split; [|split].
  - cbn. apply edits_saves.
  - cbn. rewrite edits_saves. reflexivity.
  - reflexivity.
Qed.

(** X23: [handleSave] of a signed-in user starts one save of the present
    document and cancels the pending debounce timer, so no second save
    follows from it. *)
Theorem manual_save_supersedes st :
  saves (handleSave true st) = saves st ++ [present (History.history (history st))] /\
  saveTimeout (handleSave true st) = None /\
  (forall user, saveTimeoutFired user (handleSave true st) = handleSave true st).
Proof. repeat split. Qed.

(** X24: a parsed file whose [nodes] property is an array is imported:
    it becomes the present document with the old present one undo away,
    the redo entries are dropped, the selection is cleared, a debounced
    save of the imported document is scheduled and [error] is left as it
    was. *)
Theorem import_accepted importedData items st :
  property "nodes" importedData = Ok (Some (JArray items)) ->
  isUndoRedoAction (history st) = false ->
  let st' := handleImport asDiagramData nullPropertyMessage (Parsed importedData) st in
  present (History.history (history st')) = asDiagramData importedData /\
  fst (undo (history st')) = Some (present (History.history (history st))) /\
  future (History.history (history st')) = [] /\
  selectedNodeIds st' = [] /\
  saveTimeout st' = Some (asDiagramData importedData) /\
  saveStatus st' = unsaved /\
  error st' = error st.
Proof.
  intros Hp Hflag. cbn zeta. unfold handleImport. rewrite Hp. cbn [falsy isArray orb negb].
  cbn [debouncedSave setSelectedNodeIds withHistory history selectedNodeIds saveTimeout
       saveStatus error].
  split; [unfold setState; rewrite Hflag; reflexivity|].
  split; [apply (undo_commit (history st)); exact Hflag|].
  split; [unfold setState; rewrite Hflag; reflexivity|].
  repeat split.
Qed.

(** X25: [handleUndo] and [handleRedo] leave the editor unchanged when
    there is nothing to undo or redo; otherwise they schedule a debounced
    save of the document they restore and start no save themselves. *)
Theorem handleUndo_redo_schedule st :
  (past (History.history (history st)) = [] -> handleUndo st = st) /\
  (forall l a,
      past (History.history (history st)) = l ++ [a] ->
      present (History.history (history (handleUndo st))) = a /\
      saveTimeout (handleUndo st) = Some a /\
      saveStatus (handleUndo st) = unsaved /\
      saves (handleUndo st) = saves st) /\
  (future (History.history (history st)) = [] -> handleRedo st = st) /\
  (forall a l,
      future (History.history (history st)) = a :: l ->
      present (History.history (history (handleRedo st))) = a /\
      saveTimeout (handleRedo st) = Some a /\
      saveStatus (handleRedo st) = unsaved /\
      saves (handleRedo st) = saves st).
Proof.
  split; [|split; [|split]].
  - intros E. unfold handleUndo.
    rewrite (undo_nil _ E).
    destruct st; reflexivity.
  - intros l a E. unfold handleUndo. rewrite (undo_snoc _ _ _ E). repeat split.
  - intros E. unfold handleRedo.
    rewrite (redo_nil _ E).
    destruct st; reflexivity.
  - intros a l E. unfold handleRedo. rewrite (redo_cons _ _ _ E). repeat split.
Qed.

End Facts.

Lemma import_accepted_witness :
  let st :=
    {| DiagramEditor.history := useHistory 7%nat; selectedNodeIds := ["a"]; error := None;
       saveStatus := idle; saveTimeout := None; saves := [] |} in
  let importedData := JObject [("nodes", JArray []); ("edges", JArray [])] in
  let st' :=
    handleImport (fun _ => 0%nat) "Cannot read properties of null" (Parsed importedData) st in
  present (History.history (DiagramEditor.history st')) = 0%nat /\
  fst (undo (DiagramEditor.history st')) =
    Some (present (History.history (DiagramEditor.history st))) /\
  future (History.history (DiagramEditor.history st')) = [] /\
  selectedNodeIds st' = [] /\
  saveTimeout st' = Some 0%nat /\
  saveStatus st' = unsaved /\
  error st' = error st.
Proof.
  cbn zeta.
  apply (import_accepted (fun _ => 0%nat) "Cannot read properties of null"
           (JObject [("nodes", JArray []); ("edges", JArray [])]) []);
    reflexivity.
Defined.

End DiagramEditorMore.

(** ** Merging a generated diagram *)

Module GenerateSpec.
Import Diagram Layout LayoutSpec LayoutMore LayoutRows Generate.
Local Open Scope Q_scope.



End GenerateSpec.

(** ** Text wrapping and the grid *)

Module DrawingSpec.
Import Diagram Drawing.
Local Open Scope Q_scope.
Local Open Scope string_scope.
Local Open Scope list_scope.

Lemma append_nonempty a b : a <> "" -> String.append a b <> "".
Proof. destruct a; [congruence | discriminate]. Qed.

Lemma eqb_empty_false s : String.eqb s "" = false <-> s <> "".
Proof. rewrite <- String.eqb_neq. reflexivity. Qed.

(** X27: no line of the word wrap is empty, and every line either fits
    in [maxWidth] or is a single word of the text, which is then too wide
    to fit on any line. *)
Theorem wrapLines_fit measure maxWidth words line :
  line ∈ wrapLines measure maxWidth words ->
  line <> "" /\ (line ∈ words \/ measure line <= maxWidth).
Proof.
  unfold wrapLines.
  set (P := fun l : string => l <> "" /\ (l ∈ words \/ measure l <= maxWidth)).
  assert (H : forall ws acc,
             (forall w, w ∈ ws -> w ∈ words) ->
             Forall P (fst acc) -> (snd acc = "" \/ P (snd acc)) ->
             Forall P (fst (fold_left (wrapStep measure maxWidth) ws acc)) /\
             (snd (fold_left (wrapStep measure maxWidth) ws acc) = "" \/
              P (snd (fold_left (wrapStep measure maxWidth) ws acc)))).
  { induction ws as [|w ws IH]; intros [lines cur] Hws Hlines Hcur; cbn [fold_left]; [auto|].
    assert (Hw : w = "" \/ P w).
    { destruct (String.eqb w "") eqn:E; [left; apply String.eqb_eq; exact E|].
      right. split; [apply eqb_empty_false; exact E|]. left. apply Hws. left. }
    apply IH; [intros w' Hw'; apply Hws; right; exact Hw'| |];
      unfold wrapStep; cbn [fst snd] in *;
      destruct (String.eqb cur "") eqn:Ecur; cbn [negb andb];
      rewrite ?andb_false_r, ?andb_true_r; cbn [fst snd]; try assumption.
    - destruct (Qle_bool _ maxWidth); cbn [negb fst]; [assumption|].
      apply Forall_app. split; [assumption|]. constructor; [|constructor].
      destruct Hcur as [Hc|Hc]; [apply String.eqb_neq in Ecur; congruence | exact Hc].
    - destruct (Qle_bool _ maxWidth) eqn:Efit; cbn [negb snd]; [|assumption].
      right. split.
      + apply append_nonempty. apply String.eqb_neq. exact Ecur.
      + right. apply Qle_bool_iff. exact Efit. }
  destruct (H words ([], "")) as [Hl Hc]; [auto | constructor | left; reflexivity|].
  destruct (fold_left (wrapStep measure maxWidth) words ([], "")) as [lines cur].
  cbn [fst snd] in *. intros Hin.
  destruct (String.eqb cur "") eqn:Ecur; cbn [negb] in Hin.
  - rewrite Forall_forall in Hl. exact (Hl _ Hin).
  - apply elem_of_app in Hin as [Hin|Hin].
    + rewrite Forall_forall in Hl. exact (Hl _ Hin).
    + apply list_elem_of_singleton in Hin. subst line.
      destruct Hc as [Hc|Hc]; [apply String.eqb_neq in Ecur; congruence | exact Hc].
Qed.

Lemma append_assoc (a b c : string) :
  String.append (String.append a b) c = String.append a (String.append b c).
Proof.
  induction a as [|ch a IH]; [reflexivity|].
  change (String ch (String.append (String.append a b) c) =
          String ch (String.append a (String.append b c))).
  f_equal. exact IH.
Qed.

Lemma concat_snoc (l : list string) (a : string) :
  String.concat " " (l ++ [a]) =
  match l with
  | [] => a
  | _ :: _ => String.append (String.concat " " l) (String.append " " a)
  end.
Proof.
  induction l as [|b l IH]; [reflexivity|].
  destruct l as [|c l]; [reflexivity|].
  change (String.concat " " ((b :: c :: l) ++ [a]))
    with (String.append b (String.append " " (String.concat " " ((c :: l) ++ [a])))).
  rewrite IH.
  change (String.concat " " (b :: c :: l))
    with (String.append b (String.append " " (String.concat " " (c :: l)))).
  rewrite !append_assoc. reflexivity.
Qed.

(** X28: when no word is empty, that is when the text has no leading,
    trailing or doubled space, the wrapped lines joined by single spaces
    are the text again: wrapping drops and reorders nothing. *)
Theorem wrapLines_preserve_text measure maxWidth words :
  Forall (fun w => w <> "") words ->
  String.concat " " (wrapLines measure maxWidth words) = String.concat " " words.
Proof.
  intros Hne.
  assert (H : forall ws done acc,
             Forall (fun w => w <> "") ws ->
             (snd acc = "" -> fst acc = [] /\ done = []) ->
             String.concat " " (linesOf acc) = String.concat " " done ->
             String.concat " " (linesOf (fold_left (wrapStep measure maxWidth) ws acc)) =
             String.concat " " (done ++ ws)).
  { induction ws as [|w ws IH]; intros done [lines cur] Hws Hempty Hacc; cbn [fold_left].
    - rewrite app_nil_r. exact Hacc.
    - inversion Hws as [|? ? Hw Hws']; subst.
      replace (done ++ w :: ws) with ((done ++ [w]) ++ ws) by (rewrite <- app_assoc; reflexivity).
      cbn [fst snd] in *.
      assert (Hwe : String.eqb w "" = false) by (apply String.eqb_neq; exact Hw).
      apply IH; [exact Hws'| |].
      + unfold wrapStep. destruct (String.eqb cur "") eqn:Ecur; cbn [negb andb];
          rewrite ?andb_false_r, ?andb_true_r; cbn [snd];
          [intros E; exfalso; exact (Hw E)|].
        destruct (Qle_bool _ maxWidth); cbn [negb snd];
          [|intros E; exfalso; exact (Hw E)].
        intros E. exfalso. revert E. apply append_nonempty. apply String.eqb_neq. exact Ecur.
      + unfold wrapStep, linesOf in *. cbn [fst snd] in *.
        destruct (String.eqb cur "") eqn:Ecur; cbn [negb andb];
          rewrite ?andb_false_r, ?andb_true_r; cbn [fst snd].
        * apply String.eqb_eq in Ecur. destruct (Hempty Ecur) as [-> ->].
          rewrite Hwe. reflexivity.
        * assert (Hd : done <> []).
          { intros ->. cbn in Hacc. rewrite concat_snoc in Hacc.
            destruct lines; [apply String.eqb_neq in Ecur; congruence|].
            revert Hacc. destruct (String.concat " " (s :: lines)); discriminate. }
          destruct (Qle_bool _ maxWidth); cbn [negb fst snd].
          -- assert (Hte : String.eqb (String.append cur (String.append " " w)) "" = false).
             { apply String.eqb_neq, append_nonempty. apply String.eqb_neq. exact Ecur. }
             rewrite Hte. rewrite (concat_snoc done w).
             destruct done as [|d0 done']; [congruence|].
             rewrite <- Hacc, !concat_snoc.
             destruct lines; rewrite ?append_assoc; reflexivity.
          -- rewrite Hwe. rewrite (concat_snoc done w), (concat_snoc (lines ++ [cur]) w).
             destruct done as [|d0 done']; [congruence|].
             rewrite <- Hacc. destruct (lines ++ [cur]) eqn:El; [destruct lines; discriminate|].
             reflexivity. }
  unfold wrapLines.
  specialize (H words [] ([], "") Hne (fun _ => conj eq_refl eq_refl) eq_refl).
  unfold linesOf in H.
  destruct (fold_left (wrapStep measure maxWidth) words ([], "")) as [lines cur].
  cbn [fst snd] in H. destruct (String.eqb cur ""); exact H.
Qed.

Lemma jsRem_bounds a b :
  0 < b -> - b < jsRem a b /\ jsRem a b < b /\ (0 <= a -> 0 <= jsRem a b).
Proof.
  intros Hb. unfold jsRem, Qtrunc.
  assert (E : a == (a / b) * b) by (field; lra).
  set (q := a / b) in *.
  destruct (Qlt_le_dec q 0) as [Hq|Hq].
  - pose proof (Qle_ceiling q) as H1. pose proof (Qceiling_lt q) as H2.
    unfold Z.sub in H2. rewrite inject_Z_plus, inject_Z_opp in H2.
    change (inject_Z 1) with 1 in H2.
    set (k := inject_Z (Qceiling q)) in *.
    assert (Hr : a - b * k == b * (q - k)) by (rewrite E; ring).
    rewrite Hr. repeat split; nra.
  - pose proof (Qfloor_le q) as H1. pose proof (Qlt_floor q) as H2.
    rewrite inject_Z_plus in H2. change (inject_Z 1) with 1 in H2.
    set (k := inject_Z (Qfloor q)) in *.
    assert (Hr : a - b * k == b * (q - k)) by (rewrite E; ring).
    rewrite Hr. repeat split; nra.
Qed.

Lemma jsRem_congruent a b : exists k : Z, jsRem a b == a + inject_Z k * b.
Proof.
  unfold jsRem. exists (- Qtrunc (a / b))%Z. rewrite inject_Z_opp. ring.
Qed.

(** X29: for a positive scale the first grid line of [drawGrid] lies in
    [[0, gridSize)] and differs from the offset by a whole number of
    cells, whatever the sign of the offset. *)
Theorem gridStart_range offset scale :
  0 < scale ->
  0 <= gridStart offset scale /\ gridStart offset scale < gridSize scale /\
  exists k : Z, gridStart offset scale == offset + inject_Z k * gridSize scale.
Proof.
  intros Hs. assert (Hg : 0 < gridSize scale) by (unfold gridSize; lra).
  unfold gridStart. set (g := gridSize scale) in *.
  destruct (jsRem_bounds offset g Hg) as (H1 & H2 & _).
  destruct (jsRem_bounds (jsRem offset g + g) g Hg) as (_ & H4 & H5).
  split; [apply H5; lra|]. split; [exact H4|].
  destruct (jsRem_congruent offset g) as [k1 E1].
  destruct (jsRem_congruent (jsRem offset g + g) g) as [k2 E2].
  exists (k2 + k1 + 1)%Z. rewrite E2, E1, !inject_Z_plus. change (inject_Z 1) with 1. ring.
Qed.

Lemma wrapLines_fit_witness :
  "hello big" <> "" /\
  ("hello big" ∈ ["hello"; "big"; "world"] \/ monospace "hello big" <= 80).
Proof.
  apply (wrapLines_fit monospace 80 ["hello"; "big"; "world"] "hello big").
  vm_compute. left.
Defined.

Lemma wrapLines_preserve_text_witness :
  String.concat " " (wrapLines monospace 80 ["hello"; "big"; "world"]) =
  String.concat " " ["hello"; "big"; "world"].
Proof.
  apply (wrapLines_preserve_text monospace 80 ["hello"; "big"; "world"]).
  repeat constructor; discriminate.
Defined.

Lemma gridStart_range_witness :
  0 <= gridStart (-30) 1 /\ gridStart (-30) 1 < gridSize 1 /\
  exists k : Z, gridStart (-30) 1 == -30 + inject_Z k * gridSize 1.
Proof.
  apply (gridStart_range (-30) 1). reflexivity.
Defined.

End DrawingSpec.
